(** * A customised LSTM cell with sequence-wise batch normalisation

    Shallow embedding of [tf_lstm.py]: the helper [batch_norm] and the class
    [LSTMCell] ([__init__], [__call__]), and the properties of the step.

    Modelling conventions.
    - Floating-point tensors are idealised as tensors of real numbers; the
      [int64] counters are integers with two's-complement wrap-around.
    - The framework's variable store is an explicit finite map from full
      variable names to values.  Building the graph and running it are one
      evaluation: [get_variable] creates a variable from its initializer
      when the store does not have it, and reads it otherwise.  The source
      contains no assignment to a variable, so the model has none.
    - Code runs in a reader/state/error monad: the reader part is the
      current variable scope (name and default initializer), the state part
      is the store, the error part carries Python exceptions.  A shape
      failure inside a framework operation is an [OpError].
    - The activation function is applied element-wise. *)

From Stdlib Require Import Reals Lra ZArith List Bool Lia.
From stdpp Require Import gmap strings fin_maps pretty.

Import ListNotations.
Local Open Scope string_scope.

(** ** Exceptions and results *)

Inductive exn : Type :=
| ValueError (msg : string)
| TypeError (msg : string)
| ZeroDivisionError
| OpError (op : string).   (* a shape failure reported by a framework op *)

Definition res (A : Type) : Type := (exn + A)%type.

Definition res_bind {A B} (r : res A) (f : A -> res B) : res B :=
  match r with
  | inl e => inl e
  | inr a => f a
  end.

#[global] Instance res_ret : MRet res := fun A a => inr a.
#[global] Instance res_mbind : MBind res := fun A B f r => res_bind r f.

(** ** Tensors

    A rank-2 tensor is a list of rows together with its number of columns
    (so that a batch of zero rows still has a feature width).  A rank-1
    tensor is a plain list.  A tensor of higher rank that is only reduced
    over all but its last axis is represented by the matrix of its
    feature rows. *)

Definition vector : Type := list R.

Record matrix : Type := Matrix { ncols : nat; rows : list (list R) }.

Definition nrows (m : matrix) : nat := length (rows m).

Definition entry (m : matrix) (r k : nat) : R := nth k (nth r (rows m) []) 0%R.

Definition tabulate (r c : nat) (f : nat -> nat -> R) : matrix :=
  {| ncols := c;
     rows := map (fun i => map (fun k => f i k) (seq 0 c)) (seq 0 r) |}.

Definition of_vector (v : vector) : matrix := {| ncols := length v; rows := [v] |}.

Definition wf_matrix (m : matrix) : Prop :=
  Forall (fun row => length row = ncols m) (rows m).

Definition Rsum (n : nat) (f : nat -> R) : R :=
  fold_right Rplus 0%R (map f (seq 0 n)).

(** ** Framework primitives (module [tf])

    The source is glue over these operations of the host framework; each is
    given its documented meaning on real-valued tensors.  An operation whose
    operand shapes are incompatible fails with [OpError]. *)

Module tf.

Definition sigmoid (x : R) : R := (1 / (1 + exp (- x)))%R.

Definition rsqrt (x : R) : R := (1 / sqrt x)%R.

(** Element-wise application of a scalar function. *)
Definition tmap (f : R -> R) (m : matrix) : matrix :=
  {| ncols := ncols m; rows := map (map f) (rows m) |}.

(** Broadcasting of one dimension: equal sizes, or one of them is 1. *)
Definition broadcast_dim (a b : nat) : option nat :=
  if (a =? b)%nat then Some a
  else if (a =? 1)%nat then Some b
  else if (b =? 1)%nat then Some a
  else None.

Definition bidx (size i : nat) : nat := if (size =? 1)%nat then 0%nat else i.

(** Element-wise binary operation with broadcasting. *)
Definition binop (name : string) (f : R -> R -> R) (a b : matrix) : res matrix :=
  match broadcast_dim (nrows a) (nrows b), broadcast_dim (ncols a) (ncols b) with
  | Some r, Some c =>
      inr (tabulate r c (fun i k =>
             f (entry a (bidx (nrows a) i) (bidx (ncols a) k))
               (entry b (bidx (nrows b) i) (bidx (ncols b) k))))
  | _, _ => inl (OpError name)
  end.

Definition add : matrix -> matrix -> res matrix := binop "Add" Rplus.
Definition sub : matrix -> matrix -> res matrix := binop "Sub" Rminus.
Definition mul : matrix -> matrix -> res matrix := binop "Mul" Rmult.

(** Operations with a Python scalar operand. *)
Definition add_scalar (m : matrix) (s : R) : matrix := tmap (fun x => (x + s)%R) m.
Definition scalar_mul (s : R) (m : matrix) : matrix := tmap (fun x => (s * x)%R) m.

(** [math_ops.matmul]. *)
Definition matmul (a b : matrix) : res matrix :=
  if (ncols a =? nrows b)%nat then
    inr (tabulate (nrows a) (ncols b)
           (fun i q => Rsum (ncols a) (fun p => (entry a i p * entry b p q)%R)))
  else inl (OpError "MatMul").

(** [array_ops.concat(1, [a, b])]. *)
Definition concat1 (a b : matrix) : res matrix :=
  if (nrows a =? nrows b)%nat then
    inr (tabulate (nrows a) (ncols a + ncols b)
           (fun i k => if (k <? ncols a)%nat then entry a i k
                       else entry b i (k - ncols a)))
  else inl (OpError "Concat").

(** [array_ops.concat(0, ms)] for a non-empty list of matrices. *)
Definition concat0 (ms : list matrix) : res matrix :=
  match ms with
  | [] => inl (OpError "Concat")
  | m :: _ =>
      if forallb (fun m' => (ncols m' =? ncols m)%nat) ms then
        inr {| ncols := ncols m; rows := concat (map rows ms) |}
      else inl (OpError "Concat")
  end.

(** [nn_ops.bias_add]. *)
Definition bias_add (m : matrix) (b : vector) : res matrix :=
  if (ncols m =? length b)%nat then
    inr (tabulate (nrows m) (ncols m) (fun i k => (entry m i k + nth k b 0)%R))
  else inl (OpError "BiasAdd").

(** [array_ops.split(1, 4, m)]: four slices of equal width. *)
Definition split4 (m : matrix) : res (matrix * matrix * matrix * matrix) :=
  if (ncols m mod 4 =? 0)%nat then
    let w := (ncols m / 4)%nat in
    let part t := tabulate (nrows m) w (fun i k => entry m i (t * w + k)) in
    inr (part 0%nat, part 1%nat, part 2%nat, part 3%nat)
  else inl (OpError "Split").

(** [clip_ops.clip_by_value]: [maximum(minimum(t, hi), lo)]. *)
Definition clip_by_value (t : matrix) (lo hi : R) : matrix :=
  tmap (fun v => Rmax (Rmin v hi) lo) t.

(** [nn.moments] over all axes but the last: per-feature mean and
    (population) variance of the rows. *)
Definition moments (x : matrix) : vector * vector :=
  let n := INR (nrows x) in
  let mean k := (Rsum (nrows x) (fun i => entry x i k) / n)%R in
  let var k := (Rsum (nrows x) (fun i => (entry x i k - mean k) ^ 2) / n)%R in
  (map mean (seq 0 (ncols x)), map var (seq 0 (ncols x))).

(** [nn.batch_normalization(x, mean, variance, offset, scale, eps)]:
    [inv = rsqrt(variance + eps) * scale; x * inv + (offset - mean * inv)]. *)
Definition batch_normalization (x : matrix) (mean variance offset scale : vector)
    (variance_epsilon : R) : res matrix :=
  let inv0 := tmap rsqrt (add_scalar (of_vector variance) variance_epsilon) in
  res_bind (mul inv0 (of_vector scale)) (fun inv =>
  res_bind (mul x inv) (fun xi =>
  res_bind (mul (of_vector mean) inv) (fun mi =>
  res_bind (sub (of_vector offset) mi) (fun shift =>
  add xi shift)))).

End tf.

(** Rank-1 tensors under the broadcasting binary operations. *)
Definition as_vector (m : matrix) : vector := nth 0 (rows m) [].

Definition binop1 (name : string) (f : R -> R -> R) (u v : vector) : res vector :=
  res_bind (tf.binop name f (of_vector u) (of_vector v)) (fun m => inr (as_vector m)).

(** [int64] arithmetic wraps around. *)
Definition wrap64 (z : Z) : Z := ((z + 2 ^ 63) mod 2 ^ 64 - 2 ^ 63)%Z.

(** ** The variable store and the construction monad *)

Inductive stored : Type :=
| Float1 (v : vector)
| Float2 (m : matrix)
| Int64 (z : Z).

Record variable : Type := mkVariable { trainable : bool; contents : stored }.

(** An initializer gives, for a variable's full name and shape, its initial
    entries (a rank-1 variable uses row 0). *)
Definition Initializer : Type := string -> list nat -> nat -> nat -> R.

Definition zeros_initializer : Initializer := fun _ _ _ _ => 0%R.
Definition ones_initializer : Initializer := fun _ _ _ _ => 1%R.
Definition constant_initializer (c : R) : Initializer := fun _ _ _ _ => c.

Record VariableScope : Type :=
  { vs_name : string; vs_initializer : Initializer }.

Definition M (A : Type) : Type :=
  VariableScope -> gmap string variable -> res A * gmap string variable.

Definition ret {A} (a : A) : M A := fun _ st => (inr a, st).

Definition raise {A} (e : exn) : M A := fun _ st => (inl e, st).

Definition bind {A B} (m : M A) (f : A -> M B) : M B :=
  fun vs st =>
    match m vs st with
    | (inl e, st') => (inl e, st')
    | (inr a, st') => f a vs st'
    end.

Definition lift {A} (r : res A) : M A := fun _ st => (r, st).

#[global] Instance M_ret : MRet M := @ret.
#[global] Instance M_bind : MBind M := fun A B f m => bind m f.

Module vs.

Definition scoped (outer name : string) : string :=
  if String.eqb outer "" then name else outer ++ "/" ++ name.

(** [with vs.variable_scope(name, initializer=init): body]. *)
Definition variable_scope {A} (name : string) (init : option Initializer)
    (body : M A) : M A :=
  fun s st =>
    body {| vs_name := scoped (vs_name s) name;
            vs_initializer := default (vs_initializer s) init |} st.

Definition share_error : exn :=
  ValueError "Trying to share variable, but specified shape and found shape differ".

(** [vs.get_variable(name, shape=[n], ...)] for a rank-1 float variable:
    the variable is created from its initializer the first time, and read
    afterwards. *)
Definition get_variable (name : string) (n : nat) (init : option Initializer)
    (trainable : bool) : M vector :=
  fun s st =>
    let full := scoped (vs_name s) name in
    match st !! full with
    | Some {| contents := Float1 v |} =>
        if (length v =? n)%nat then (inr v, st) else (inl share_error, st)
    | Some _ => (inl share_error, st)
    | None =>
        let v := map (default (vs_initializer s) init full [n] 0%nat) (seq 0 n) in
        (inr v, <[full := {| trainable := trainable; contents := Float1 v |}]> st)
    end.

(** The same for a rank-2 float variable of shape [[r, c]]. *)
Definition get_variable2 (name : string) (r c : nat) (init : option Initializer)
    (trainable : bool) : M matrix :=
  fun s st =>
    let full := scoped (vs_name s) name in
    match st !! full with
    | Some {| contents := Float2 m |} =>
        if ((nrows m =? r) && (ncols m =? c))%nat then (inr m, st)
        else (inl share_error, st)
    | Some _ => (inl share_error, st)
    | None =>
        let m := tabulate r c (default (vs_initializer s) init full [r; c]) in
        (inr m, <[full := {| trainable := trainable; contents := Float2 m |}]> st)
    end.

(** The same for a scalar [int64] variable with a constant initializer. *)
Definition get_variable_int64 (name : string) (init : Z) (trainable : bool) : M Z :=
  fun s st =>
    let full := scoped (vs_name s) name in
    match st !! full with
    | Some {| contents := Int64 z |} => (inr z, st)
    | Some _ => (inl share_error, st)
    | None =>
        (inr init, <[full := {| trainable := trainable; contents := Int64 init |}]> st)
    end.

End vs.

(** [control_flow_ops.cond(pred, fn1, fn2)]: both branches are constructed,
    the predicate selects one at run time; a predicate that is not a tensor
    is rejected. *)
Definition cond {A} (pred : option bool) (fn1 fn2 : res A) : M A :=
  match pred with
  | None => raise (OpError "cond")
  | Some p =>
      a ← lift fn1;
      b ← lift fn2;
      mret (if p then a else b)
  end.

(** [rnn_cell._get_sharded_variable]: the rows of a [[r, c]] matrix are
    stored in [num_shards] variables [name_0], [name_1], ... *)
Fixpoint mapM {A B} (f : A -> M B) (l : list A) : M (list B) :=
  match l with
  | [] => mret []
  | a :: l' => b ← f a; bs ← mapM f l'; mret (b :: bs)
  end.

Definition _get_sharded_variable (name : string) (r c : nat) (num_shards : nat)
    : M (list matrix) :=
  if (r <? num_shards)%nat then raise (ValueError "Too many shards")
  else if (num_shards =? 0)%nat then raise ZeroDivisionError
  else
    let unit_shard_size := (r / num_shards)%nat in
    let remaining_rows := (r - unit_shard_size * num_shards)%nat in
    mapM (fun i =>
            let current_size :=
              if (i <? remaining_rows)%nat then S unit_shard_size else unit_shard_size in
            vs.get_variable2 (name ++ "_" ++ pretty i) current_size c None true)
         (seq 0 num_shards).

(** [rnn_cell._get_concat_variable]: the shards concatenated along axis 0. *)
Definition _get_concat_variable (name : string) (r c : nat) (num_shards : nat)
    : M matrix :=
  sharded_variable ← _get_sharded_variable name r c num_shards;
  match sharded_variable with
  | [m] => mret m
  | _ => lift (tf.concat0 sharded_variable)
  end.

(** ** [batch_norm] (lines 41-89) *)

Definition batch_norm (x : matrix) (deterministic : option bool) (alpha : R)
    (shift : bool) (scope : string) : M matrix :=
  vs.variable_scope scope None (
    let feat_dim := ncols x in
    beta ← (if shift
            then vs.get_variable (scope ++ "_beta") feat_dim (Some zeros_initializer) true
            else vs.get_variable (scope ++ "_beta") feat_dim (Some zeros_initializer) false);
    gamma ← vs.get_variable (scope ++ "_gamma") feat_dim
              (Some (constant_initializer (1 / 10))) true;
    mean ← vs.get_variable (scope ++ "_mean") feat_dim (Some zeros_initializer) false;
    var ← vs.get_variable (scope ++ "_var") feat_dim (Some ones_initializer) false;
    counter ← vs.get_variable_int64 (scope ++ "_counter") 0 false;
    zero_cnt ← vs.get_variable_int64 (scope ++ "_zero_cnt") 0 false;
    let '(batch_mean, batch_var) := tf.moments x in
    '(mean, var) ← cond (Some (counter =? zero_cnt)%Z)
                     (inr (batch_mean, batch_var))
                     (inr (mean, var));
    '(mean, var, counter) ←
       cond deterministic
         (inr (mean, var, counter))
         (res_bind (binop1 "Add" Rplus (map (Rmult (1 - alpha)) batch_mean)
                                       (map (Rmult alpha) mean)) (fun mean' =>
          res_bind (binop1 "Add" Rplus (map (Rmult (1 - alpha)) batch_var)
                                       (map (Rmult alpha) var)) (fun var' =>
          inr (mean', var', wrap64 (counter + 1)))));
    normed ← lift (tf.batch_normalization x mean var beta gamma (1 / 100000000));
    mret normed).

(** ** Static shapes *)

Definition Dimension : Type := option nat.

(** [None] is a shape of unknown rank. *)
Definition TensorShape : Type := option (list Dimension).

(** A graph input: its static shape and its value. *)
Record Tensor : Type := { get_shape : TensorShape; value : matrix }.

(** [TensorShape.with_rank]. *)
Definition with_rank (s : TensorShape) (rank : nat) : res (list Dimension) :=
  match s with
  | None => inr (repeat None rank)
  | Some dims =>
      if (length dims =? rank)%nat then inr dims
      else inl (ValueError "Shape %s must have rank %d")
  end.

(** ** [LSTMCell] *)

Record LSTMStateTuple : Type := mkLSTMStateTuple { c : matrix; h : matrix }.

Record LSTMCell : Type :=
  { _num_units : nat;
    _use_peepholes : bool;
    _cell_clip : option R;
    _initializer : option Initializer;
    _num_proj : option nat;
    _num_unit_shards : nat;
    _num_proj_shards : nat;
    _forget_bias : R;
    _activation : R -> R;
    _bn : bool;
    _return_gate : bool;
    _deterministic : option bool;
    _state_size : nat * nat;
    _output_size : nat }.

(** [LSTMCell.__init__] (lines 92-144).  The activation is applied
    element-wise. *)
Definition __init__ (num_units : nat) (use_peepholes : bool) (cell_clip : option R)
    (initializer : option Initializer) (num_proj : option nat)
    (num_unit_shards num_proj_shards : nat) (forget_bias : R)
    (bn return_gate : bool) (deterministic : option bool)
    (activation : R -> R) : LSTMCell :=
  let truthy := match num_proj with Some (S _) => true | _ => false end in
  {| _num_units := num_units;
     _use_peepholes := use_peepholes;
     _cell_clip := cell_clip;
     _initializer := initializer;
     _num_proj := num_proj;
     _num_unit_shards := num_unit_shards;
     _num_proj_shards := num_proj_shards;
     _forget_bias := forget_bias;
     _activation := activation;
     _bn := bn;
     _return_gate := return_gate;
     _deterministic := deterministic;
     _state_size :=
       if truthy then (num_units, default 0%nat num_proj) else (num_units, num_units);
     _output_size :=
       if truthy then default 0%nat num_proj else num_units |}.

Definition state_size (self : LSTMCell) : nat * nat := _state_size self.
Definition output_size (self : LSTMCell) : nat := _output_size self.

Definition gates : Type := (matrix * matrix * matrix * matrix)%type.

(** Lines 191-222: the weights and the gate pre-activations [lstm_matrix]. *)
Definition lstm_matrix (self : LSTMCell) (inputs m_prev : matrix)
    (input_size num_proj : nat) (scope_name : string) : M matrix :=
  if _bn self then
    concat_w_i ← _get_concat_variable "W_i" input_size (4 * _num_units self)
                   (_num_unit_shards self);
    concat_w_r ← _get_concat_variable "W_r" num_proj (4 * _num_units self)
                   (_num_unit_shards self);
    b ← vs.get_variable "B" (4 * _num_units self) (Some zeros_initializer) true;
    xi ← lift (tf.matmul inputs concat_w_i);
    lstm_matrix_i ← batch_norm xi (_deterministic self) (9 / 10) false
                      (scope_name ++ "bn_i");
    xr ← lift (tf.matmul m_prev concat_w_r);
    lstm_matrix_r ← batch_norm xr (_deterministic self) (9 / 10) false
                      (scope_name ++ "bn_r");
    lift (s ← tf.add lstm_matrix_i lstm_matrix_r; tf.bias_add s b)
  else
    concat_w ← _get_concat_variable "W" (input_size + num_proj) (4 * _num_units self)
                 (_num_unit_shards self);
    b ← vs.get_variable "B" (4 * _num_units self) (Some zeros_initializer) true;
    lift (cell_inputs ← tf.concat1 inputs m_prev;
          xw ← tf.matmul cell_inputs concat_w;
          tf.bias_add xw b).

(** Lines 235-240: the new cell state before clipping. *)
Definition cell_update (self : LSTMCell) (peepholes : option (vector * vector * vector))
    (i j f c_prev : matrix) : res matrix :=
  match peepholes with
  | Some (w_f_diag, w_i_diag, _) =>
      pf ← tf.mul (of_vector w_f_diag) c_prev;
      zf ← tf.add (tf.add_scalar f (_forget_bias self)) pf;
      keep ← tf.mul (tf.tmap tf.sigmoid zf) c_prev;
      pi ← tf.mul (of_vector w_i_diag) c_prev;
      zi ← tf.add i pi;
      new ← tf.mul (tf.tmap tf.sigmoid zi) (tf.tmap (_activation self) j);
      tf.add keep new
  | None =>
      keep ← tf.mul (tf.tmap tf.sigmoid (tf.add_scalar f (_forget_bias self))) c_prev;
      new ← tf.mul (tf.tmap tf.sigmoid i) (tf.tmap (_activation self) j);
      tf.add keep new
  end.

(** Lines 247-258: the output gate, [sigmoid(o)] or
    [sigmoid(o + w_o_diag * c)]. *)
Definition output_gate (peepholes : option (vector * vector * vector)) (o c : matrix)
    : res matrix :=
  match peepholes with
  | Some (_, _, w_o_diag) =>
      po ← tf.mul (of_vector w_o_diag) c;
      zo ← tf.add o po;
      mret (tf.tmap tf.sigmoid zo)
  | None => mret (tf.tmap tf.sigmoid o)
  end.

(** Lines 247-258: the new output before projection. *)
Definition cell_output (self : LSTMCell) (peepholes : option (vector * vector * vector))
    (o c : matrix) (scope_name : string) : M matrix :=
  og ← lift (output_gate peepholes o c);
  if _bn self then
    normed ← batch_norm c (_deterministic self) (9 / 10) true (scope_name ++ "bn_m");
    lift (tf.mul og (tf.tmap (_activation self) normed))
  else
    lift (tf.mul og (tf.tmap (_activation self) c)).

(** Lines 227-233: the peephole weights, when enabled. *)
Definition peephole_variables (self : LSTMCell) : M (option (vector * vector * vector)) :=
  if _use_peepholes self then
    w_f_diag ← vs.get_variable "W_F_diag" (_num_units self) None true;
    w_i_diag ← vs.get_variable "W_I_diag" (_num_units self) None true;
    w_o_diag ← vs.get_variable "W_O_diag" (_num_units self) None true;
    mret (Some (w_f_diag, w_i_diag, w_o_diag))
  else mret None.

(** Lines 242-245: the optional clipping of the cell state. *)
Definition clip_cell (self : LSTMCell) (c : matrix) : matrix :=
  match _cell_clip self with
  | Some clip => tf.clip_by_value c (- clip) clip
  | None => c
  end.

(** Lines 260-265: the optional output projection. *)
Definition project (self : LSTMCell) (m : matrix) : M matrix :=
  match _num_proj self with
  | Some p =>
      concat_w_proj ← _get_concat_variable "W_P" (_num_units self) p
                        (_num_proj_shards self);
      lift (tf.matmul m concat_w_proj)
  | None => mret m
  end.

Definition scope_name_of (scope : option string) : string :=
  match scope with
  | Some s => if String.eqb s "" then "LSTMCell" else s
  | None => "LSTMCell"
  end.

(** Lines 189-265: the body of the [with vs.variable_scope(...)] block. *)
Definition step (self : LSTMCell) (inputs c_prev m_prev : matrix)
    (input_size num_proj : nat) (scope_name : string) : M (matrix * matrix * gates) :=
  lstm_matrix ← lstm_matrix self inputs m_prev input_size num_proj scope_name;
  '(i, j, f, o) ← lift (tf.split4 lstm_matrix);
  peepholes ← peephole_variables self;
  c ← lift (cell_update self peepholes i j f c_prev);
  let c := clip_cell self c in
  m ← cell_output self peepholes o c scope_name;
  m ← project self m;
  mret (c, m, (i, j, f, o)).

(** [LSTMCell.__call__] (lines 154-272). *)
Definition __call__ (self : LSTMCell) (inputs : Tensor) (state : matrix * matrix)
    (scope : option string) : M (matrix * LSTMStateTuple * option gates) :=
  let num_proj := match _num_proj self with None => _num_units self | Some p => p end in
  let '(c_prev, m_prev) := state in
  dims ← lift (with_rank (get_shape inputs) 2);
  match nth 1 dims None with
  | None => raise (ValueError "Could not infer input size from inputs.get_shape()[-1]")
  | Some input_size =>
      let scope_name := scope_name_of scope in
      '(c, m, g) ← vs.variable_scope scope_name (_initializer self)
                     (step self (value inputs) c_prev m_prev input_size num_proj scope_name);
      let new_state := mkLSTMStateTuple c m in
      if negb (_return_gate self) then mret (m, new_state, None)
      else mret (m, new_state, Some g)
  end.

(** * Vocabulary of the properties *)

(** A computation is [stable] when it only extends the store, and when run
    again in any store that extends its final store it returns the same
    result and leaves that store as it is: no variable is ever overwritten. *)
Definition stable {A} (m : M A) : Prop :=
  ∀ s st r st1, m s st = (r, st1) →
    st ⊆ st1 ∧ ∀ st2, st1 ⊆ st2 → m s st2 = (r, st2).

(** [reads m s st a]: in store [st] the computation returns [a] and creates
    nothing. *)
Definition reads {A} (m : M A) (s : VariableScope) (st : gmap string variable) (a : A)
    : Prop :=
  m s st = (inr a, st).

(** The variable scope in which the body of [__call__] runs. *)
Definition inner_scope (self : LSTMCell) (scope : option string) (s : VariableScope)
    : VariableScope :=
  {| vs_name := vs.scoped (vs_name s) (scope_name_of scope);
     vs_initializer := default (vs_initializer s) (_initializer self) |}.

Definition num_proj_of (self : LSTMCell) : nat :=
  match _num_proj self with None => _num_units self | Some p => p end.

(** The two messages of the shape check of lines 184-186. *)
Definition msg_infer : string := "Could not infer input size from inputs.get_shape()[-1]".
Definition msg_rank : string := "Shape %s must have rank %d".

(** An exception that is not one of the shape check's. *)
Definition later_error (e : exn) : Prop :=
  e ≠ ValueError msg_infer ∧ e ≠ ValueError msg_rank.

Definition res_later {A} (r : res A) : Prop := ∀ e, r = inl e → later_error e.

Definition only_later {A} (m : M A) : Prop :=
  ∀ s st e st', m s st = (inl e, st') → later_error e.

Definition is_ok {A} (r : res A) : bool :=
  match r with inr _ => true | inl _ => false end.

(** A store holds a value under a name. *)
Definition holds (st : gmap string variable) (name : string) (v : stored) : Prop :=
  ∃ t, st !! name = Some {| trainable := t; contents := v |}.

(** The value an [int64] variable will be read with: its stored value, or
    its initial value when it has not been created yet. *)
Definition stored_int64 (st : gmap string variable) (name : string) (init : Z) : Z :=
  match st !! name with
  | Some {| contents := Int64 z |} => z
  | _ => init
  end.

(** The scope inside [batch_norm], and the full names of its variables. *)
Definition bn_scope (s : VariableScope) (scope : string) : VariableScope :=
  {| vs_name := vs.scoped (vs_name s) scope; vs_initializer := vs_initializer s |}.

Definition bn_name (s : VariableScope) (scope suffix : string) : string :=
  vs.scoped (vs_name (bn_scope s scope)) (scope ++ suffix).

Definition counter_value (st : gmap string variable) (s : VariableScope) (scope : string) : Z :=
  stored_int64 st (bn_name s scope "_counter") 0.

Definition zero_cnt_value (st : gmap string variable) (s : VariableScope) (scope : string) : Z :=
  stored_int64 st (bn_name s scope "_zero_cnt") 0.

(** The statistics [batch_norm] normalises with, given what it read. *)
Definition used_statistics (x : matrix) (det : bool) (alpha : R)
    (mean var : vector) (counter zero_cnt : Z) : res (vector * vector) :=
  let '(batch_mean, batch_var) := tf.moments x in
  let '(mean, var) := if (counter =? zero_cnt)%Z then (batch_mean, batch_var)
                      else (mean, var) in
  if det then inr (mean, var)
  else
    mean' ← binop1 "Add" Rplus (map (Rmult (1 - alpha)) batch_mean) (map (Rmult alpha) mean);
    var' ← binop1 "Add" Rplus (map (Rmult (1 - alpha)) batch_var) (map (Rmult alpha) var);
    mret (mean', var').

(** ** Concrete inputs used as test points *)

(** The root variable scope, with a zero default initializer. *)
Definition root_scope : VariableScope :=
  {| vs_name := ""; vs_initializer := zeros_initializer |}.

(** A batch of two one-feature rows, [[1], [3]]. *)
Definition two_rows : matrix := {| ncols := 1; rows := [[1%R]; [3%R]] |}.

Definition zeros (r c : nat) : matrix := tabulate r c (λ _ _, 0%R).

(** The default cell with one unit. *)
Definition unit_cell : LSTMCell :=
  __init__ 1 false None None None 1 1 1 false false None tanh.

(** A [1 x 1] zero input whose batch dimension is statically unknown. *)
Definition unit_input : Tensor :=
  {| get_shape := Some [None; Some 1%nat]; value := zeros 1 1 |}.

(** An input of static shape [[2, 3, 4]]: every dimension is known, the
    rank is not 2. *)
Definition rank3_input : Tensor :=
  {| get_shape := Some [Some 2%nat; Some 3%nat; Some 4%nat]; value := zeros 6 4 |}.

(** The last dimension of a static shape is unknown. *)
Definition last_dim_unknown (sh : TensorShape) : bool :=
  match sh with
  | None => true
  | Some dims => match List.last dims None with None => true | Some _ => false end
  end.

Definition raises_ValueError {A} (r : res A) : bool :=
  match r with inl (ValueError _) => true | _ => false end.

(** ** The step as the specification words it *)

(** Clamping of one cell-state value to [[-clip, clip]], when configured. *)
Definition clip_scalar (self : LSTMCell) (v : R) : R :=
  match _cell_clip self with
  | Some clip => Rmax (Rmin v clip) (- clip)
  | None => v
  end.

(** The new cell state of batch row [r] and unit [k], from the gate
    pre-activations [L] (four slices of width [num_units]: input gate,
    candidate, forget gate, output gate) and the previous cell state:
    [sigmoid(f + forget_bias [+ w_f * c_prev]) * c_prev
     + sigmoid(i [+ w_i * c_prev]) * activation(j)]. *)
Definition spec_cell_state (self : LSTMCell) (peepholes : option (vector * vector * vector))
    (L c_prev : matrix) (r k : nat) : R :=
  let n := _num_units self in
  let i := entry L r k in
  let j := entry L r (n + k) in
  let f := entry L r (2 * n + k) in
  match peepholes with
  | None =>
      (tf.sigmoid (f + _forget_bias self) * entry c_prev r k
       + tf.sigmoid i * _activation self j)%R
  | Some (w_f_diag, w_i_diag, _) =>
      (tf.sigmoid (f + _forget_bias self + nth k w_f_diag 0 * entry c_prev r k)
         * entry c_prev r k
       + tf.sigmoid (i + nth k w_i_diag 0 * entry c_prev r k) * _activation self j)%R
  end.

(** The four gate slices of [L]. *)
Definition spec_gates (n : nat) (L : matrix) : gates :=
  (tabulate (nrows L) n (λ r k, entry L r k),
   tabulate (nrows L) n (λ r k, entry L r (n + k)),
   tabulate (nrows L) n (λ r k, entry L r (2 * n + k)),
   tabulate (nrows L) n (λ r k, entry L r (3 * n + k))).

(** What C3 asserts of a successful step [(out, ns, g)] with final store
    [st']: for the stored weights [W] and bias [B], with
    [L = bias_add(matmul(concat(inputs, m_prev), W), B)], every entry of the
    returned cell state is the (optionally clipped) value of
    [spec_cell_state]; the peephole weights are present exactly when
    [use_peepholes] is set. *)
Definition cell_state_as_specified (self : LSTMCell) (inputs : Tensor)
    (c_prev m_prev : matrix) (scope : option string) (s : VariableScope)
    (st' : gmap string variable) (ns : LSTMStateTuple) : Prop :=
  ∃ dims input_size W B cell_inputs xw L peep,
    with_rank (get_shape inputs) 2 = inr dims ∧
    nth 1 dims None = Some input_size ∧
    reads (_get_concat_variable "W" (input_size + num_proj_of self) (4 * _num_units self)
             (_num_unit_shards self)) (inner_scope self scope s) st' W ∧
    reads (vs.get_variable "B" (4 * _num_units self) (Some zeros_initializer) true)
      (inner_scope self scope s) st' B ∧
    tf.concat1 (value inputs) m_prev = inr cell_inputs ∧
    tf.matmul cell_inputs W = inr xw ∧
    tf.bias_add xw B = inr L ∧
    reads (peephole_variables self) (inner_scope self scope s) st' peep ∧
    (_use_peepholes self = false → peep = None) ∧
    (_use_peepholes self = true → ∃ w_f w_i w_o, peep = Some (w_f, w_i, w_o)) ∧
    ∀ r k, (r < nrows (value inputs))%nat → (k < _num_units self)%nat →
      entry (c ns) r k = clip_scalar self (spec_cell_state self peep L c_prev r k).

(** Every element of a matrix lies in [[lo, hi]]. *)
Definition all_within (lo hi : R) (m : matrix) : Prop :=
  Forall (Forall (λ v, (lo <= v <= hi)%R)) (rows m).

(** The default cell with one unit and [cell_clip = -1]. *)
Definition negative_clip_cell : LSTMCell :=
  __init__ 1 false (Some (-1)%R) None None 1 1 1 false false None tanh.

(** The default cell with one unit and [cell_clip = 5]. *)
Definition clip5_cell : LSTMCell :=
  __init__ 1 false (Some 5%R) None None 1 1 1 false false None tanh.

(** A matrix of feature width [w]: its declared width, and the length of
    every row. *)
Definition has_width (m : matrix) (w : nat) : Prop :=
  ncols m = w ∧ Forall (λ row, length row = w) (rows m).

(** The default cell with one unit and a projection to width 3. *)
Definition projected_cell : LSTMCell :=
  __init__ 1 false None None (Some 3%nat) 1 1 1 false false None tanh.



(** The stored weight matrix [W] and bias [B] read as all zeros. *)
Definition weights_read_zero (self : LSTMCell) (scope : option string)
    (s : VariableScope) (st' : gmap string variable) : Prop :=
  (∀ input_size W,
     reads (_get_concat_variable "W" (input_size + num_proj_of self) (4 * _num_units self)
              (_num_unit_shards self)) (inner_scope self scope s) st' W →
     ∀ p q, entry W p q = 0%R) ∧
  (∀ B,
     reads (vs.get_variable "B" (4 * _num_units self) (Some zeros_initializer) true)
       (inner_scope self scope s) st' B →
     ∀ k, nth k B 0%R = 0%R).

(** What C8 asserts of a successful step [(out, ns, g)] on a batch of [b]
    rows: the four gate pre-activations are zero, the effective forget
    gate is [sigmoid(forget_bias)], the new cell state and the output are
    zero. *)
Definition zero_step_result (self : LSTMCell) (inputs : Tensor) (m_prev : matrix)
    (scope : option string) (s : VariableScope) (st' : gmap string variable)
    (out : matrix) (ns : LSTMStateTuple) (g : option gates) : Prop :=
  let b := nrows (value inputs) in
  let n := _num_units self in
  ∃ W B cell_inputs xw L i j f o,
    tf.concat1 (value inputs) m_prev = inr cell_inputs ∧
    tf.matmul cell_inputs W = inr xw ∧
    tf.bias_add xw B = inr L ∧
    tf.split4 L = inr (i, j, f, o) ∧
    g = (if _return_gate self then Some (i, j, f, o) else None) ∧
    i = zeros b n ∧ j = zeros b n ∧ f = zeros b n ∧ o = zeros b n ∧
    tf.tmap tf.sigmoid (tf.add_scalar f (_forget_bias self))
      = tabulate b n (λ _ _, tf.sigmoid (_forget_bias self)) ∧
    c ns = zeros b n ∧
    out = zeros b (num_proj_of self) ∧
    h ns = out.

(** The one-unit cell whose activation is the sigmoid. *)
Definition sigmoid_cell : LSTMCell :=
  __init__ 1 false None None None 1 1 1 false false None tf.sigmoid.

(** ** Further vocabulary *)

(** An activation whose values lie in [[-1, 1]] (such as [tanh]). *)
Definition bounded_activation (act : R → R) : Prop :=
  ∀ x, (-1 <= act x <= 1)%R.

(** A matrix has the shape [b x n]: [b] rows, each of length [n]. *)
Definition has_shape (m : matrix) (b n : nat) : Prop :=
  nrows m = b ∧ has_width m n.

(** The one-unit cell constructed with [num_proj = 0]. *)
Definition zero_proj_cell : LSTMCell :=
  __init__ 1 false None None (Some 0%nat) 1 1 1 false false None tanh.

(** The one-unit cell with batch normalisation and no [deterministic]
    tensor (the constructor's default). *)
Definition bn_default_cell : LSTMCell :=
  __init__ 1 false None None None 1 1 1 true false None tanh.

(** The one-unit cell that returns its gates. *)
Definition gate_cell : LSTMCell :=
  __init__ 1 false None None None 1 1 1 false true None tanh.

(** The one-unit cell with peepholes. *)
Definition peephole_cell : LSTMCell :=
  __init__ 1 true None None None 1 1 1 false false None tanh.

(** One entry of the normalised tensor as the specification words it:
    [(x - mean) / sqrt(var + eps) * gamma + beta], with [eps = 1e-8]. *)
Definition normalised_entry (x : matrix) (mean var beta gamma : vector) (r k : nat) : R :=
  ((entry x r k - nth k mean 0) / sqrt (nth k var 0 + 1 / 100000000) * nth k gamma 0
   + nth k beta 0)%R.

(** None of the variables of a [batch_norm] call site exists yet. *)
Definition bn_fresh (st : gmap string variable) (s : VariableScope) (scope : string) : Prop :=
  ∀ suffix, st !! bn_name s scope suffix = None.

(** A store in which the counter of call site [bn] already holds 1. *)
Definition counted_store : gmap string variable :=
  {[ "bn/bn_counter" := {| trainable := false; contents := Int64 1 |} ]}.

(** The output of batch row [r] and unit [k] before projection, from the
    gate pre-activations [L] and the new cell state [c]:
    [sigmoid(o [+ w_o * c]) * activation(c)]. *)
Definition spec_output_entry (self : LSTMCell)
    (peepholes : option (vector * vector * vector)) (L c : matrix) (r k : nat) : R :=
  let o := entry L r (3 * _num_units self + k) in
  match peepholes with
  | None => (tf.sigmoid o * _activation self (entry c r k))%R
  | Some (_, _, w_o_diag) =>
      (tf.sigmoid (o + nth k w_o_diag 0 * entry c r k) * _activation self (entry c r k))%R
  end.

(** What the output of a successful step without batch normalisation is:
    for the stored weights, with
    [L = bias_add(matmul(concat(inputs, m_prev), W), B)], the
    pre-projection output [m0] has the entries of [spec_output_entry] at
    the new cell state, and the output is [m0], or its product with the
    stored projection matrix. *)
Definition output_as_specified (self : LSTMCell) (inputs : Tensor)
    (c_prev m_prev : matrix) (scope : option string) (s : VariableScope)
    (st' : gmap string variable) (out : matrix) (ns : LSTMStateTuple) : Prop :=
  ∃ dims input_size W B cell_inputs xw L peep m0,
    with_rank (get_shape inputs) 2 = inr dims ∧
    nth 1 dims None = Some input_size ∧
    reads (_get_concat_variable "W" (input_size + num_proj_of self) (4 * _num_units self)
             (_num_unit_shards self)) (inner_scope self scope s) st' W ∧
    reads (vs.get_variable "B" (4 * _num_units self) (Some zeros_initializer) true)
      (inner_scope self scope s) st' B ∧
    tf.concat1 (value inputs) m_prev = inr cell_inputs ∧
    tf.matmul cell_inputs W = inr xw ∧
    tf.bias_add xw B = inr L ∧
    reads (peephole_variables self) (inner_scope self scope s) st' peep ∧
    m0 = tabulate (nrows (value inputs)) (_num_units self)
           (spec_output_entry self peep L (c ns)) ∧
    match _num_proj self with
    | None => out = m0
    | Some p =>
        ∃ W_P,
          reads (_get_concat_variable "W_P" (_num_units self) p (_num_proj_shards self))
            (inner_scope self scope s) st' W_P ∧
          out = tabulate (nrows (value inputs)) p
                  (λ r q, Rsum (_num_units self) (λ k, (entry m0 r k * entry W_P k q)%R))
    end.

(** What the third component of the result is: the four raw slices of the
    gate pre-activations when [return_gate] is set, nothing otherwise. *)
Definition gates_as_returned (self : LSTMCell) (inputs : Tensor) (m_prev : matrix)
    (scope : option string) (s : VariableScope) (st' : gmap string variable)
    (g : option gates) : Prop :=
  match g with
  | Some gs =>
      _return_gate self = true ∧
      ∃ input_size L,
        reads (lstm_matrix self (value inputs) m_prev input_size (num_proj_of self)
                 (scope_name_of scope)) (inner_scope self scope s) st' L ∧
        ncols L = (4 * _num_units self)%nat ∧
        gs = spec_gates (_num_units self) L
  | None => _return_gate self = false
  end.

(** The variables a step without batch normalisation reads all exist in
    the store, with the shapes the step asks for. *)
Definition weights_exist (self : LSTMCell) (scope : option string) (s : VariableScope)
    (st : gmap string variable) (input_size : nat) : Prop :=
  (∃ W, reads (_get_concat_variable "W" (input_size + num_proj_of self)
                 (4 * _num_units self) (_num_unit_shards self))
          (inner_scope self scope s) st W) ∧
  (∃ B, reads (vs.get_variable "B" (4 * _num_units self) (Some zeros_initializer) true)
          (inner_scope self scope s) st B) ∧
  (∃ peep, reads (peephole_variables self) (inner_scope self scope s) st peep) ∧
  match _num_proj self with
  | Some p =>
      ∃ W_P, reads (_get_concat_variable "W_P" (_num_units self) p (_num_proj_shards self))
               (inner_scope self scope s) st W_P
  | None => True
  end.

(** A store holding a zero weight matrix and a zero bias for the one-unit
    cell under the root scope. *)
Definition unit_store : gmap string variable :=
  <["LSTMCell/W_0" := {| trainable := true; contents := Float2 (zeros 2 4) |}]>
    {[ "LSTMCell/B" := {| trainable := true; contents := Float1 [0; 0; 0; 0]%R |} ]}.

(** The exponential blend of a batch statistic with a stored one,
    [(1 - alpha) * batch + alpha * stored], entry by entry. *)
Definition blend (alpha : R) (batch stored : vector) : vector :=
  map (λ k, ((1 - alpha) * nth k batch 0 + alpha * nth k stored 0)%R)
      (seq 0 (length batch)).



(** * Properties *)

(** ** The construction monad never overwrites a variable *)

Lemma stable_ret {A} (a : A) : stable (ret a).
Proof. intros s st r st1 [= <- <-]. split; [reflexivity | done]. Qed.

Lemma stable_mret {A} (a : A) : stable (mret a : M A).
Proof. apply stable_ret. Qed.

Lemma stable_raise {A} (e : exn) : stable (raise e : M A).
Proof. intros s st r st1 [= <- <-]. split; [reflexivity | done]. Qed.

Lemma stable_lift {A} (r : res A) : stable (lift r).
Proof. intros s st r' st1 [= <- <-]. split; [reflexivity | done]. Qed.

Lemma stable_bind {A B} (m : M A) (f : A → M B) :
  stable m → (∀ a, stable (f a)) → stable (bind m f).
Proof.
  intros Hm Hf s st r st1. unfold bind.
  destruct (m s st) as [[e | a] st0] eqn:Em; intros E.
  - injection E as <- <-. destruct (Hm _ _ _ _ Em) as [Hsub Hre].
    split; [done |]. intros st2 H2. by rewrite (Hre _ H2).
  - destruct (Hm _ _ _ _ Em) as [Hsub Hre].
    destruct (Hf a _ _ _ _ E) as [Hsub' Hre'].
    split; [by etrans |]. intros st2 H2.
    rewrite (Hre st2); [by apply Hre' | by etrans].
Qed.

Lemma stable_mbind {A B} (m : M A) (f : A → M B) :
  stable m → (∀ a, stable (f a)) → stable (m ≫= f).
Proof. apply stable_bind. Qed.

Lemma stable_variable_scope {A} name init (body : M A) :
  stable body → stable (vs.variable_scope name init body).
Proof. intros Hb s st r st1 E. exact (Hb _ _ _ _ E). Qed.

Lemma length_tabulate_rows r c f : nrows (tabulate r c f) = r.
Proof. unfold nrows, tabulate; simpl. by rewrite length_map, length_seq. Qed.

Lemma stable_get_variable name n init tr : stable (vs.get_variable name n init tr).
Proof.
  intros s st r st1. unfold vs.get_variable.
  set (full := vs.scoped (vs_name s) name).
  destruct (st !! full) as [[t [v | m | z]] |] eqn:El.
  - intros E.
    assert (st1 = st) as -> by (destruct (_ =? _)%nat; by injection E as _ <-).
    split; [done |]. intros st2 H2. rewrite (lookup_weaken _ _ _ _ El H2).
    destruct (_ =? _)%nat; by injection E as <-.
  - intros [= <- <-]. split; [done |]. intros st2 H2.
    by rewrite (lookup_weaken _ _ _ _ El H2).
  - intros [= <- <-]. split; [done |]. intros st2 H2.
    by rewrite (lookup_weaken _ _ _ _ El H2).
  - intros [= <- <-]. split; [by apply insert_subseteq |]. intros st2 H2.
    rewrite (lookup_weaken _ st2 full _ (lookup_insert_eq _ _ _) H2).
    by rewrite length_map, length_seq, Nat.eqb_refl.
Qed.

Lemma stable_get_variable2 name r c init tr : stable (vs.get_variable2 name r c init tr).
Proof.
  intros s st res0 st1. unfold vs.get_variable2.
  set (full := vs.scoped (vs_name s) name).
  destruct (st !! full) as [[t [v | m | z]] |] eqn:El.
  - intros [= <- <-]. split; [done |]. intros st2 H2.
    by rewrite (lookup_weaken _ _ _ _ El H2).
  - intros E.
    assert (st1 = st) as -> by (destruct (_ && _); by injection E as _ <-).
    split; [done |]. intros st2 H2. rewrite (lookup_weaken _ _ _ _ El H2).
    destruct (_ && _); by injection E as <-.
  - intros [= <- <-]. split; [done |]. intros st2 H2.
    by rewrite (lookup_weaken _ _ _ _ El H2).
  - intros [= <- <-]. split; [by apply insert_subseteq |]. intros st2 H2.
    rewrite (lookup_weaken _ st2 full _ (lookup_insert_eq _ _ _) H2).
    by rewrite length_tabulate_rows, !Nat.eqb_refl.
Qed.

Lemma stable_get_variable_int64 name z0 tr : stable (vs.get_variable_int64 name z0 tr).
Proof.
  intros s st r st1. unfold vs.get_variable_int64.
  set (full := vs.scoped (vs_name s) name).
  destruct (st !! full) as [[t [v | m | z]] |] eqn:El.
  1-3: intros [= <- <-]; split; [done |]; intros st2 H2;
       by rewrite (lookup_weaken _ _ _ _ El H2).
  intros [= <- <-]. split; [by apply insert_subseteq |]. intros st2 H2.
  by rewrite (lookup_weaken _ st2 full _ (lookup_insert_eq _ _ _) H2).
Qed.

Lemma stable_cond {A} pred (fn1 fn2 : res A) : stable (cond pred fn1 fn2).
Proof.
  destruct pred as [p |]; [| apply stable_raise].
  unfold cond. apply stable_mbind; [apply stable_lift |]. intros a.
  apply stable_mbind; [apply stable_lift |]. intros b. apply stable_ret.
Qed.

Lemma stable_mapM {A B} (f : A → M B) l : (∀ a, stable (f a)) → stable (mapM f l).
Proof.
  intros Hf. induction l as [| a l IH]; simpl; [apply stable_ret |].
  apply stable_mbind; [done |]. intros b.
  apply stable_mbind; [done |]. intros bs. apply stable_ret.
Qed.

Lemma stable_get_sharded_variable name r c n : stable (_get_sharded_variable name r c n).
Proof.
  unfold _get_sharded_variable.
  destruct (r <? n)%nat; [apply stable_raise |].
  destruct (n =? 0)%nat; [apply stable_raise |].
  apply stable_mapM. intros i. apply stable_get_variable2.
Qed.

Lemma stable_get_concat_variable name r c n : stable (_get_concat_variable name r c n).
Proof.
  unfold _get_concat_variable.
  apply stable_mbind; [apply stable_get_sharded_variable |].
  intros [| m [| m' l]]; first [apply stable_lift | apply stable_ret].
Qed.

Ltac stable_tac :=
  repeat first
    [ apply stable_mret | apply stable_ret | apply stable_raise | apply stable_lift
    | apply stable_get_variable | apply stable_get_variable2
    | apply stable_get_variable_int64 | apply stable_cond
    | apply stable_get_concat_variable
    | apply stable_variable_scope
    | apply stable_mbind; [| intros ?]
    | match goal with
      | |- stable (let '(_, _) := ?x in _) => destruct x
      | |- stable (if ?b then _ else _) => destruct b
      | |- stable (match ?x with _ => _ end) => destruct x
      end ].

Lemma stable_batch_norm x det alpha shift scope :
  stable (batch_norm x det alpha shift scope).
Proof. unfold batch_norm. stable_tac. Qed.

Lemma stable_lstm_matrix self inputs m_prev input_size num_proj scope_name :
  stable (lstm_matrix self inputs m_prev input_size num_proj scope_name).
Proof. unfold lstm_matrix. stable_tac; apply stable_batch_norm. Qed.

Lemma stable_peephole_variables self : stable (peephole_variables self).
Proof. unfold peephole_variables. stable_tac. Qed.

Lemma stable_cell_output self peepholes o c scope_name :
  stable (cell_output self peepholes o c scope_name).
Proof. unfold cell_output. stable_tac; apply stable_batch_norm. Qed.

Lemma stable_project self m : stable (project self m).
Proof. unfold project. stable_tac. Qed.

Lemma stable_step self inputs c_prev m_prev input_size num_proj scope_name :
  stable (step self inputs c_prev m_prev input_size num_proj scope_name).
Proof.
  unfold step.
  apply stable_mbind; [apply stable_lstm_matrix |]. intros L.
  apply stable_mbind; [apply stable_lift |]. intros [[[i j] f] o].
  apply stable_mbind; [apply stable_peephole_variables |]. intros peep.
  apply stable_mbind; [apply stable_lift |]. intros c.
  apply stable_mbind; [apply stable_cell_output |]. intros m.
  apply stable_mbind; [apply stable_project |]. intros m'. apply stable_ret.
Qed.

Lemma stable_call self inputs state scope : stable (__call__ self inputs state scope).
Proof.
  unfold __call__. destruct state as [c_prev m_prev].
  apply stable_mbind; [apply stable_lift |]. intros dims.
  destruct (nth 1 dims None); [| apply stable_raise].
  apply stable_mbind; [apply stable_variable_scope, stable_step |].
  intros [[c m] g]. destruct (negb _); apply stable_ret.
Qed.

(** ** Running a computation in its final store *)

Lemma stable_reads {A} (m : M A) s st a st' :
  stable m → m s st = (inr a, st') → reads m s st' a.
Proof. intros Hm E. destruct (Hm _ _ _ _ E) as [_ Hre]. by apply Hre. Qed.

Lemma reads_weaken {A} (m : M A) s st st' a :
  stable m → reads m s st a → st ⊆ st' → reads m s st' a.
Proof. intros Hm E Hsub. destruct (Hm _ _ _ _ E) as [_ Hre]. by apply Hre. Qed.

Lemma bind_inv {A B} (m : M A) (f : A → M B) s st b st' :
  stable m → (∀ a, stable (f a)) →
  (m ≫= f) s st = (inr b, st') →
  ∃ a st0, m s st = (inr a, st0) ∧ f a s st0 = (inr b, st') ∧
           reads m s st' a ∧ reads (f a) s st' b.
Proof.
  intros Hm Hf E. change ((m ≫= f) s st) with (bind m f s st) in E.
  unfold bind in E. destruct (m s st) as [[e | a] st0] eqn:Em; [done |].
  exists a, st0. split; [done |]. split; [done |].
  destruct (Hf a _ _ _ _ E) as [Hsub Hre]. split.
  - eapply reads_weaken; [done | by eapply stable_reads | done].
  - by eapply stable_reads.
Qed.

Lemma reads_bind_inv {A B} (m : M A) (f : A → M B) s st b :
  stable m → (∀ a, stable (f a)) →
  reads (m ≫= f) s st b → ∃ a, reads m s st a ∧ reads (f a) s st b.
Proof.
  intros Hm Hf E. destruct (bind_inv _ _ _ _ _ _ Hm Hf E) as (a & st0 & _ & _ & H1 & H2).
  by exists a.
Qed.

Lemma reads_lift_inv {A} (r : res A) s st a : reads (lift r) s st a → r = inr a.
Proof. by intros [= ->]. Qed.

Lemma reads_ret_inv {A} (a b : A) s st : reads (mret a) s st b → a = b.
Proof. by intros [= ->]. Qed.

Lemma res_bind_inv {A B} (r : res A) (f : A → res B) b :
  r ≫= f = inr b → ∃ a, r = inr a ∧ f a = inr b.
Proof. destruct r as [e | a]; [done |]. intros E. by exists a. Qed.

(** ** Tensors: shapes and entries *)

Lemma ncols_tabulate r c f : ncols (tabulate r c f) = c.
Proof. reflexivity. Qed.

Lemma entry_tabulate r c f i k :
  (i < r)%nat → (k < c)%nat → entry (tabulate r c f) i k = f i k.
Proof.
  intros Hi Hk. unfold entry, tabulate; simpl.
  rewrite (nth_indep _ [] (map (λ k, f 0%nat k) (seq 0 c)))
    by (by rewrite length_map, length_seq).
  rewrite (map_nth (λ i, map (λ k, f i k) (seq 0 c)) (seq 0 r) 0%nat i).
  rewrite seq_nth by done. simpl.
  rewrite (nth_indep _ 0%R (f i 0%nat)) by (by rewrite length_map, length_seq).
  rewrite (map_nth (λ k, f i k) (seq 0 c) 0%nat k).
  by rewrite seq_nth.
Qed.

Lemma wf_tabulate r c f : wf_matrix (tabulate r c f).
Proof.
  unfold wf_matrix, tabulate; simpl. apply List.Forall_forall. intros row Hin.
  apply in_map_iff in Hin as (i & <- & _). by rewrite length_map, length_seq.
Qed.

Lemma tabulate_ext r c f g :
  (∀ i k, (i < r)%nat → (k < c)%nat → f i k = g i k) → tabulate r c f = tabulate r c g.
Proof.
  intros H. unfold tabulate. f_equal. apply map_ext_in. intros i Hi.
  apply in_seq in Hi. apply map_ext_in. intros k Hk. apply in_seq in Hk.
  apply H; lia.
Qed.

Lemma tmap_tabulate g r c f :
  tf.tmap g (tabulate r c f) = tabulate r c (λ i k, g (f i k)).
Proof.
  unfold tf.tmap, tabulate; simpl. f_equal. rewrite map_map.
  apply map_ext. intros i. by rewrite map_map.
Qed.

Lemma nrows_tmap g m : nrows (tf.tmap g m) = nrows m.
Proof. unfold nrows, tf.tmap; simpl. by rewrite length_map. Qed.

Lemma ncols_tmap g m : ncols (tf.tmap g m) = ncols m.
Proof. reflexivity. Qed.

Lemma entry_tmap g m i k :
  (i < nrows m)%nat → (k < length (nth i (rows m) []))%nat →
  entry (tf.tmap g m) i k = g (entry m i k).
Proof.
  intros Hi Hk. unfold entry, tf.tmap; simpl.
  rewrite (nth_indep _ [] (map g [])) by (by rewrite length_map).
  rewrite (map_nth (map g) (rows m) [] i).
  rewrite (nth_indep _ 0%R (g 0%R)) by (by rewrite length_map).
  by rewrite (map_nth g).
Qed.

Lemma wf_row_length m i : wf_matrix m → (i < nrows m)%nat → length (nth i (rows m) []) = ncols m.
Proof.
  intros Hwf Hi. unfold wf_matrix in Hwf. rewrite List.Forall_forall in Hwf.
  apply Hwf. by apply nth_In.
Qed.

Lemma broadcast_dim_same n : tf.broadcast_dim n n = Some n.
Proof. unfold tf.broadcast_dim. by rewrite Nat.eqb_refl. Qed.

Lemma bidx_lt size i : (i < size)%nat → tf.bidx size i = i.
Proof. unfold tf.bidx. destruct (Nat.eqb_spec size 1); lia. Qed.

(** On operands of equal shape a binary operation is plainly element-wise. *)
Lemma binop_same name f a b :
  nrows a = nrows b → ncols a = ncols b →
  tf.binop name f a b =
    inr (tabulate (nrows a) (ncols a) (λ i k, f (entry a i k) (entry b i k))).
Proof.
  intros Hr Hc. unfold tf.binop. rewrite <- Hr, <- Hc, !broadcast_dim_same.
  f_equal. apply tabulate_ext. intros i k Hi Hk. by rewrite !bidx_lt.
Qed.

(** A rank-1 operand of matching width is broadcast along the rows. *)
Lemma binop_row name f v b :
  length v = ncols b →
  tf.binop name f (of_vector v) b =
    inr (tabulate (nrows b) (ncols b) (λ i k, f (nth k v 0%R) (entry b i k))).
Proof.
  intros Hc. unfold tf.binop. change (ncols (of_vector v)) with (length v).
  change (nrows (of_vector v)) with 1%nat. rewrite Hc, broadcast_dim_same.
  assert (tf.broadcast_dim 1 (nrows b) = Some (nrows b)) as ->.
  { unfold tf.broadcast_dim. destruct (Nat.eqb_spec 1 (nrows b)); [by f_equal | done]. }
  f_equal. apply tabulate_ext. intros i k Hi Hk.
  by rewrite (bidx_lt (nrows b)), !(bidx_lt (ncols b)).
Qed.

(** ** Inversion of a successful step *)

Lemma call_inv self inputs c_prev m_prev scope s st out ns g st' :
  __call__ self inputs (c_prev, m_prev) scope s st = (inr (out, ns, g), st') →
  ∃ dims input_size gs,
    with_rank (get_shape inputs) 2 = inr dims ∧
    nth 1 dims None = Some input_size ∧
    step self (value inputs) c_prev m_prev input_size (num_proj_of self)
      (scope_name_of scope) (inner_scope self scope s) st = (inr (c ns, out, gs), st') ∧
    h ns = out ∧
    g = (if _return_gate self then Some gs else None).
Proof.
  unfold __call__. intros E.
  change (?m ≫= ?f) with (bind m f) in E. unfold bind at 1 in E. unfold lift in E.
  destruct (with_rank (get_shape inputs) 2) as [e | dims] eqn:Ed; [done |].
  match type of E with
  | context [match ?x with Some _ => _ | None => _ end] =>
      destruct x as [input_size |] eqn:En; [| by unfold raise in E]
  end.
  change (?m ≫= ?f) with (bind m f) in E. unfold bind at 1 in E.
  unfold vs.variable_scope in E. fold (inner_scope self scope s) in E.
  fold (num_proj_of self) in E.
  destruct (step _ _ _ _ _ _ _ _ _) as [[e | [[c1 m1] gs]] st1] eqn:Es; [done |].
  exists dims, input_size, gs.
  repeat split; try done; destruct (_return_gate self); simpl in E;
    injection E as <- <- <- <-; done.
Qed.

Lemma step_inv self inputs c_prev m_prev input_size num_proj scope_name s st c1 m1 gs st' :
  step self inputs c_prev m_prev input_size num_proj scope_name s st
    = (inr (c1, m1, gs), st') →
  ∃ L peep c0 m0,
    reads (lstm_matrix self inputs m_prev input_size num_proj scope_name) s st' L ∧
    tf.split4 L = inr gs ∧
    reads (peephole_variables self) s st' peep ∧
    cell_update self peep gs.1.1.1 gs.1.1.2 gs.1.2 c_prev = inr c0 ∧
    c1 = clip_cell self c0 ∧
    reads (cell_output self peep gs.2 c1 scope_name) s st' m0 ∧
    reads (project self m0) s st' m1.
Proof.
  intros E. pose proof (stable_reads _ _ _ _ _ (stable_step _ _ _ _ _ _ _) E) as R.
  clear E. unfold step in R.
  apply reads_bind_inv in R as (L & HL & R);
    [| apply stable_lstm_matrix | intros; stable_tac;
       first [apply stable_peephole_variables | apply stable_cell_output
             | apply stable_project]].
  apply reads_bind_inv in R as ([[[i j] f] o] & Hs & R);
    [| stable_tac | intros [[[? ?] ?] ?]; stable_tac;
       first [apply stable_peephole_variables | apply stable_cell_output
             | apply stable_project]].
  apply reads_lift_inv in Hs.
  apply reads_bind_inv in R as (peep & Hp & R);
    [| apply stable_peephole_variables | intros; stable_tac;
       first [apply stable_cell_output | apply stable_project]].
  apply reads_bind_inv in R as (c0 & Hc & R);
    [| stable_tac | intros; stable_tac;
       first [apply stable_cell_output | apply stable_project]].
  apply reads_lift_inv in Hc.
  apply reads_bind_inv in R as (m0 & Hm & R);
    [| apply stable_cell_output | intros; stable_tac; apply stable_project].
  apply reads_bind_inv in R as (m2 & Hpr & R);
    [| apply stable_project | intros; stable_tac].
  apply reads_ret_inv in R. injection R as <- <- <-.
  exists L, peep, c0, m0. simpl. done.
Qed.

(** ** Which exceptions the stages after the shape check can raise *)

Lemma later_OpError op : later_error (OpError op).
Proof. by split. Qed.

Lemma res_later_ok {A} (a : A) : res_later (inr a : res A).
Proof. by intros e. Qed.

Lemma res_later_mret {A} (a : A) : res_later (mret a : res A).
Proof. by intros e. Qed.

Lemma res_later_op {A} op : res_later (inl (OpError op) : res A).
Proof. intros e [= <-]. apply later_OpError. Qed.

Lemma res_later_bind {A B} (r : res A) (f : A → res B) :
  res_later r → (∀ a, res_later (f a)) → res_later (r ≫= f).
Proof.
  intros Hr Hf e. destruct r as [e' | a]; [| apply Hf].
  intros [= <-]. by apply Hr.
Qed.

Lemma res_later_binop name f a b : res_later (tf.binop name f a b).
Proof. unfold tf.binop. repeat case_match; first [apply res_later_ok | apply res_later_op]. Qed.

Lemma res_later_matmul a b : res_later (tf.matmul a b).
Proof. unfold tf.matmul. case_match; first [apply res_later_ok | apply res_later_op]. Qed.

Lemma res_later_concat1 a b : res_later (tf.concat1 a b).
Proof. unfold tf.concat1. case_match; first [apply res_later_ok | apply res_later_op]. Qed.

Lemma res_later_concat0 ms : res_later (tf.concat0 ms).
Proof.
  unfold tf.concat0. repeat case_match; first [apply res_later_ok | apply res_later_op].
Qed.

Lemma res_later_bias_add m b : res_later (tf.bias_add m b).
Proof. unfold tf.bias_add. case_match; first [apply res_later_ok | apply res_later_op]. Qed.

Lemma res_later_split4 m : res_later (tf.split4 m).
Proof. unfold tf.split4. case_match; first [apply res_later_ok | apply res_later_op]. Qed.

Ltac res_later_tac :=
  repeat first
    [ apply res_later_ok | apply res_later_mret | apply res_later_op
    | apply res_later_binop | apply res_later_matmul | apply res_later_concat1
    | apply res_later_concat0 | apply res_later_bias_add | apply res_later_split4
    | apply res_later_bind; [| intros ?]
    | match goal with
      | |- res_later (res_bind _ _) => apply (res_later_bind _ _); [| intros ?]
      | |- res_later (match ?x with _ => _ end) => destruct x
      end ].

Lemma res_later_batch_normalization x mean var offset scale eps :
  res_later (tf.batch_normalization x mean var offset scale eps).
Proof. unfold tf.batch_normalization, tf.mul, tf.sub, tf.add. res_later_tac. Qed.

Lemma res_later_binop1 name f u v : res_later (binop1 name f u v).
Proof. unfold binop1. res_later_tac. Qed.

Lemma res_later_cell_update self peep i j f c_prev :
  res_later (cell_update self peep i j f c_prev).
Proof. unfold cell_update, tf.mul, tf.add. res_later_tac. Qed.

Lemma res_later_output_gate peep o c : res_later (output_gate peep o c).
Proof. unfold output_gate, tf.mul, tf.add. res_later_tac. Qed.

Lemma only_later_ret {A} (a : A) : only_later (mret a : M A).
Proof. by intros s st e st'. Qed.

Lemma only_later_raise {A} e : later_error e → only_later (raise e : M A).
Proof. by intros He s st e' st' [= <- _]. Qed.

Lemma only_later_lift {A} (r : res A) : res_later r → only_later (lift r).
Proof. intros Hr s st e st' [= E _]. by apply Hr. Qed.

Lemma only_later_bind {A B} (m : M A) (f : A → M B) :
  only_later m → (∀ a, only_later (f a)) → only_later (m ≫= f).
Proof.
  intros Hm Hf s st e st'. change ((m ≫= f) s st) with (bind m f s st). unfold bind.
  destruct (m s st) as [[e' | a] st0] eqn:Em.
  - intros [= <- <-]. by eapply Hm.
  - apply Hf.
Qed.

Lemma only_later_variable_scope {A} name init (body : M A) :
  only_later body → only_later (vs.variable_scope name init body).
Proof. intros Hb s st e st'. apply Hb. Qed.

Lemma later_share_error : later_error vs.share_error.
Proof. by split. Qed.

Lemma only_later_get_variable name n init tr : only_later (vs.get_variable name n init tr).
Proof.
  intros s st e st'. unfold vs.get_variable.
  repeat case_match; intros [= <- _]; apply later_share_error.
Qed.

Lemma only_later_get_variable2 name r c init tr :
  only_later (vs.get_variable2 name r c init tr).
Proof.
  intros s st e st'. unfold vs.get_variable2.
  repeat case_match; intros [= <- _]; apply later_share_error.
Qed.

Lemma only_later_get_variable_int64 name z tr :
  only_later (vs.get_variable_int64 name z tr).
Proof.
  intros s st e st'. unfold vs.get_variable_int64.
  repeat case_match; intros [= <- _]; apply later_share_error.
Qed.

Lemma only_later_cond {A} pred (fn1 fn2 : res A) :
  res_later fn1 → res_later fn2 → only_later (cond pred fn1 fn2).
Proof.
  intros H1 H2. destruct pred as [p |]; [| by apply only_later_raise].
  unfold cond. apply only_later_bind; [by apply only_later_lift |]. intros a.
  apply only_later_bind; [by apply only_later_lift |]. intros b. apply only_later_ret.
Qed.

Lemma only_later_mapM {A B} (f : A → M B) l :
  (∀ a, only_later (f a)) → only_later (mapM f l).
Proof.
  intros Hf. induction l as [| a l IH]; simpl; [apply only_later_ret |].
  apply only_later_bind; [done |]. intros b.
  apply only_later_bind; [done |]. intros bs. apply only_later_ret.
Qed.

Lemma only_later_get_concat_variable name r c n :
  only_later (_get_concat_variable name r c n).
Proof.
  unfold _get_concat_variable, _get_sharded_variable.
  apply only_later_bind.
  - repeat case_match; try (by apply only_later_raise).
    apply only_later_mapM. intros i. apply only_later_get_variable2.
  - intros [| m [| m' l]];
      first [apply only_later_ret | apply only_later_lift, res_later_concat0].
Qed.

Ltac only_later_tac :=
  repeat first
    [ apply only_later_ret | apply only_later_get_variable
    | apply only_later_get_variable2 | apply only_later_get_variable_int64
    | apply only_later_get_concat_variable
    | apply only_later_variable_scope
    | apply only_later_cond
    | apply only_later_lift
    | apply only_later_bind; [| intros ?]
    | progress res_later_tac
    | apply res_later_batch_normalization | apply res_later_binop1
    | apply res_later_cell_update | apply res_later_output_gate
    | match goal with
      | |- only_later (let '(_, _) := ?x in _) => destruct x
      | |- only_later (if ?b then _ else _) => destruct b
      | |- only_later (match ?x with _ => _ end) => destruct x
      end ].

Lemma only_later_batch_norm x det alpha shift scope :
  only_later (batch_norm x det alpha shift scope).
Proof. unfold batch_norm. only_later_tac. Qed.

Lemma only_later_step self inputs c_prev m_prev input_size num_proj scope_name :
  only_later (step self inputs c_prev m_prev input_size num_proj scope_name).
Proof.
  unfold step, lstm_matrix, peephole_variables, cell_output, project, tf.add, tf.mul.
  only_later_tac; apply only_later_batch_norm.
Qed.

(** ** Variables: what a getter returns and what it leaves alone *)

Lemma append_cancel_l (p a b : string) : p ++ a = p ++ b → a = b.
Proof. induction p as [| ch p IH]; simpl; [done |]. intros [= E]. by apply IH. Qed.

Lemma scoped_inj p a b : vs.scoped p a = vs.scoped p b → a = b.
Proof.
  unfold vs.scoped. destruct (String.eqb p ""); [done |].
  intros E. apply append_cancel_l in E. by apply (append_cancel_l "/") in E.
Qed.

Lemma bn_name_ne s scope a b : a ≠ b → bn_name s scope a ≠ bn_name s scope b.
Proof.
  intros Hne E. apply Hne. unfold bn_name in E.
  apply scoped_inj in E. by apply append_cancel_l in E.
Qed.

Lemma get_variable_frame name n init tr s st r st1 k :
  vs.get_variable name n init tr s st = (r, st1) →
  k ≠ vs.scoped (vs_name s) name → st1 !! k = st !! k.
Proof.
  unfold vs.get_variable. intros E Hk.
  repeat case_match; injection E as <- <-; try done.
  by rewrite lookup_insert_ne.
Qed.

Lemma get_variable_int64_frame name z0 tr s st r st1 k :
  vs.get_variable_int64 name z0 tr s st = (r, st1) →
  k ≠ vs.scoped (vs_name s) name → st1 !! k = st !! k.
Proof.
  unfold vs.get_variable_int64. intros E Hk.
  repeat case_match; injection E as <- <-; try done.
  by rewrite lookup_insert_ne.
Qed.

Lemma get_variable_int64_value name z0 tr s st z st1 :
  vs.get_variable_int64 name z0 tr s st = (inr z, st1) →
  z = stored_int64 st (vs.scoped (vs_name s) name) z0 ∧
  holds st1 (vs.scoped (vs_name s) name) (Int64 z).
Proof.
  unfold vs.get_variable_int64, stored_int64, holds. intros E.
  repeat case_match; simplify_eq; (split; [done |]); eexists; try done.
  apply lookup_insert_eq.
Qed.

Lemma get_variable_value name n init tr s st v st1 :
  vs.get_variable name n init tr s st = (inr v, st1) →
  length v = n ∧ holds st1 (vs.scoped (vs_name s) name) (Float1 v).
Proof.
  unfold vs.get_variable, holds. intros E.
  repeat case_match; simplify_eq.
  - split; [by apply Nat.eqb_eq | by eexists].
  - split; [by rewrite length_map, length_seq | eexists; apply lookup_insert_eq].
Qed.

Lemma holds_weaken st st' name v : holds st name v → st ⊆ st' → holds st' name v.
Proof. intros [t H] Hsub. exists t. by eapply lookup_weaken. Qed.

(** ** [batch_norm]: blending a statistic with itself *)

Lemma as_vector_tabulate n f :
  as_vector (tabulate 1 n f) = map (f 0%nat) (seq 0 n).
Proof. reflexivity. Qed.

Lemma entry_of_vector v k : entry (of_vector v) 0 k = nth k v 0%R.
Proof. reflexivity. Qed.

Lemma binop1_same name f u v :
  length u = length v →
  binop1 name f u v = inr (map (λ k, f (nth k u 0%R) (nth k v 0%R)) (seq 0 (length u))).
Proof.
  intros Hl. unfold binop1. rewrite binop_same by done. simpl.
  by rewrite as_vector_tabulate.
Qed.

Lemma blend_same alpha v :
  binop1 "Add" Rplus (map (Rmult (1 - alpha)) v) (map (Rmult alpha) v) = inr v.
Proof.
  rewrite binop1_same by (by rewrite !length_map).
  f_equal. rewrite length_map. apply (nth_ext _ _ 0%R 0%R).
  - by rewrite length_map, length_seq.
  - intros k Hk. rewrite length_map, length_seq in Hk.
    rewrite (nth_indep _ 0%R ((λ k, (nth k (map (Rmult (1 - alpha)) v) 0 +
                                      nth k (map (Rmult alpha) v) 0)%R) 0%nat))
      by (by rewrite length_map, length_seq).
    rewrite (map_nth (λ k, (nth k (map (Rmult (1 - alpha)) v) 0 +
                            nth k (map (Rmult alpha) v) 0)%R) (seq 0 (length v)) 0%nat k).
    rewrite seq_nth by done. simpl.
    rewrite (nth_indep (map (Rmult (1 - alpha)) v) 0%R (Rmult (1 - alpha) 0%R))
      by (by rewrite length_map).
    rewrite (nth_indep (map (Rmult alpha) v) 0%R (Rmult alpha 0%R))
      by (by rewrite length_map).
    rewrite !map_nth. lra.
Qed.

(** On a first call the statistics used are the batch statistics, in
    training and in evaluation mode alike. *)
Lemma used_statistics_first_call x det alpha mean var z :
  used_statistics x det alpha mean var z z = inr (tf.moments x).
Proof.
  unfold used_statistics. destruct (tf.moments x) as [bm bv].
  rewrite Z.eqb_refl. destruct det; [done |].
  rewrite !blend_same. done.
Qed.

(** ** [batch_norm]: inversion of a successful call *)

Lemma cond_inv {A} p (fn1 fn2 : res A) s st r st' :
  cond (Some p) fn1 fn2 s st = (inr r, st') →
  st' = st ∧ ∃ a b, fn1 = inr a ∧ fn2 = inr b ∧ r = if p then a else b.
Proof.
  unfold cond. destruct fn1 as [e1 | a]; [done |]. destruct fn2 as [e2 | b]; [done |].
  intros [= <- <-]. split; [done |]. by exists a, b.
Qed.

Lemma batch_norm_inv x det alpha shift scope s st normed st' :
  batch_norm x (Some det) alpha shift scope s st = (inr normed, st') →
  ∃ beta gamma mean var stats,
    holds st' (bn_name s scope "_beta") (Float1 beta) ∧
    holds st' (bn_name s scope "_gamma") (Float1 gamma) ∧
    holds st' (bn_name s scope "_mean") (Float1 mean) ∧
    holds st' (bn_name s scope "_var") (Float1 var) ∧
    holds st' (bn_name s scope "_counter") (Int64 (counter_value st s scope)) ∧
    holds st' (bn_name s scope "_zero_cnt") (Int64 (zero_cnt_value st s scope)) ∧
    used_statistics x det alpha mean var (counter_value st s scope)
      (zero_cnt_value st s scope) = inr stats ∧
    tf.batch_normalization x stats.1 stats.2 beta gamma (1 / 100000000) = inr normed ∧
    length beta = ncols x ∧ length gamma = ncols x ∧
    length mean = ncols x ∧ length var = ncols x.
Proof.
  unfold batch_norm, vs.variable_scope. fold (bn_scope s scope).
  set (s' := bn_scope s scope). intros E.
  apply bind_inv in E as (beta & st1 & Eb & E & _); [| stable_tac | intros; stable_tac].
  apply bind_inv in E as (gamma & st2 & Eg & E & _); [| stable_tac | intros; stable_tac].
  apply bind_inv in E as (mean & st3 & Em & E & _); [| stable_tac | intros; stable_tac].
  apply bind_inv in E as (var & st4 & Ev & E & _); [| stable_tac | intros; stable_tac].
  apply bind_inv in E as (z & st5 & Ec & E & _); [| stable_tac | intros; stable_tac].
  apply bind_inv in E as (z0 & st6 & Ez & E & _); [| stable_tac | intros; stable_tac].
  assert (∃ tr, vs.get_variable (scope ++ "_beta") (ncols x) (Some zeros_initializer) tr
                  s' st = (inr beta, st1)) as [trb Eb'].
  { destruct shift; eauto. }
  clear Eb.
  pose proof (stable_get_variable _ _ _ _ _ _ _ _ Eb') as [S1 _].
  pose proof (stable_get_variable _ _ _ _ _ _ _ _ Eg) as [S2 _].
  pose proof (stable_get_variable _ _ _ _ _ _ _ _ Em) as [S3 _].
  pose proof (stable_get_variable _ _ _ _ _ _ _ _ Ev) as [S4 _].
  pose proof (stable_get_variable_int64 _ _ _ _ _ _ _ Ec) as [S5 _].
  pose proof (stable_get_variable_int64 _ _ _ _ _ _ _ Ez) as [S6 _].
  destruct (get_variable_value _ _ _ _ _ _ _ _ Eb') as [Lb Hb].
  destruct (get_variable_value _ _ _ _ _ _ _ _ Eg) as [Lg Hg].
  destruct (get_variable_value _ _ _ _ _ _ _ _ Em) as [Lm Hm].
  destruct (get_variable_value _ _ _ _ _ _ _ _ Ev) as [Lv Hv].
  destruct (get_variable_int64_value _ _ _ _ _ _ _ Ec) as [Hz Hc].
  destruct (get_variable_int64_value _ _ _ _ _ _ _ Ez) as [Hz0 Hc0].
  assert (z = counter_value st s scope) as Hzc.
  { rewrite Hz. unfold counter_value, stored_int64.
    change (vs.scoped (vs_name s') (scope ++ "_counter")) with (bn_name s scope "_counter").
    rewrite (get_variable_frame _ _ _ _ _ _ _ _ _ Ev) by (by apply bn_name_ne).
    rewrite (get_variable_frame _ _ _ _ _ _ _ _ _ Em) by (by apply bn_name_ne).
    rewrite (get_variable_frame _ _ _ _ _ _ _ _ _ Eg) by (by apply bn_name_ne).
    by rewrite (get_variable_frame _ _ _ _ _ _ _ _ _ Eb') by (by apply bn_name_ne). }
  assert (z0 = zero_cnt_value st s scope) as Hzz.
  { rewrite Hz0. unfold zero_cnt_value, stored_int64.
    change (vs.scoped (vs_name s') (scope ++ "_zero_cnt")) with (bn_name s scope "_zero_cnt").
    rewrite (get_variable_int64_frame _ _ _ _ _ _ _ _ Ec) by (by apply bn_name_ne).
    rewrite (get_variable_frame _ _ _ _ _ _ _ _ _ Ev) by (by apply bn_name_ne).
    rewrite (get_variable_frame _ _ _ _ _ _ _ _ _ Em) by (by apply bn_name_ne).
    rewrite (get_variable_frame _ _ _ _ _ _ _ _ _ Eg) by (by apply bn_name_ne).
    by rewrite (get_variable_frame _ _ _ _ _ _ _ _ _ Eb') by (by apply bn_name_ne). }
  clear Hz Hz0. subst z z0.
  destruct (tf.moments x) as [bm bv] eqn:Emo.
  apply bind_inv in E as ([m1 v1] & st7 & E1 & E & _); [| stable_tac | intros; stable_tac].
  apply bind_inv in E as ([[m2 v2] z2] & st8 & E2 & E & _);
    [| stable_tac | intros [[? ?] ?]; stable_tac].
  apply bind_inv in E as (nm & st9 & E3 & E & _); [| stable_tac | intros; stable_tac].
  injection E as <- <-. injection E3 as E3 <-.
  assert (st7 = st6 ∧ (m1, v1) = if (counter_value st s scope =? zero_cnt_value st s scope)%Z
                                 then (bm, bv) else (mean, var)) as [-> E1'].
  { apply cond_inv in E1 as (-> & a & b & [= <-] & [= <-] & ->). done. }
  assert (st8 = st6 ∧
          used_statistics x det alpha mean var (counter_value st s scope)
            (zero_cnt_value st s scope) = inr (m2, v2)) as [-> E2'].
  { unfold used_statistics. rewrite Emo. cbv beta iota.
    apply cond_inv in E2 as (-> & a & b & [= <-] & Hb2 & Hr). split; [done |].
    destruct (_ =? _)%Z; injection E1' as -> ->.
    all: destruct det; [by injection Hr as <- <- _ |].
    all: change (?m ≫= ?f) with (res_bind m f).
    all: destruct (binop1 "Add" Rplus (map (Rmult (1 - alpha)) bm) _) as [e | m'];
           [done |]; cbn in Hb2; cbn.
    all: destruct (binop1 "Add" Rplus (map (Rmult (1 - alpha)) bv) _) as [e | v'];
           [done |]; cbn in Hb2; cbn.
    all: injection Hb2 as <-; by injection Hr as <- <- _. }
  exists beta, gamma, mean, var, (m2, v2).
  repeat split; try done.
  - eapply holds_weaken; [done |]. by repeat (etrans; [done |]).
  - eapply holds_weaken; [done |]. by repeat (etrans; [done |]).
  - eapply holds_weaken; [done |]. by repeat (etrans; [done |]).
  - eapply holds_weaken; [done |]. by repeat (etrans; [done |]).
  - eapply holds_weaken; [done |]. by repeat (etrans; [done |]).
Qed.

(** ** Framework operations: inversion of a success *)

Lemma binop_inv name f a b m :
  tf.binop name f a b = inr m →
  ∃ r c, tf.broadcast_dim (nrows a) (nrows b) = Some r ∧
         tf.broadcast_dim (ncols a) (ncols b) = Some c ∧
         m = tabulate r c (λ i k,
               f (entry a (tf.bidx (nrows a) i) (tf.bidx (ncols a) k))
                 (entry b (tf.bidx (nrows b) i) (tf.bidx (ncols b) k))).
Proof.
  unfold tf.binop. destruct (tf.broadcast_dim (nrows a) (nrows b)) as [r |]; [| done].
  destruct (tf.broadcast_dim (ncols a) (ncols b)) as [c |]; [| done].
  intros [= <-]. by exists r, c.
Qed.

Lemma binop_ncols name f a b m :
  tf.binop name f a b = inr m → tf.broadcast_dim (ncols a) (ncols b) = Some (ncols m).
Proof. intros (r & c & _ & Hc & ->)%binop_inv. by rewrite ncols_tabulate. Qed.

Lemma matmul_inv a b m :
  tf.matmul a b = inr m →
  ncols a = nrows b ∧
  m = tabulate (nrows a) (ncols b)
        (λ i q, Rsum (ncols a) (λ p, (entry a i p * entry b p q)%R)).
Proof.
  unfold tf.matmul. destruct (Nat.eqb_spec (ncols a) (nrows b)); [| done].
  by intros [= <-].
Qed.

Lemma concat1_inv a b m :
  tf.concat1 a b = inr m →
  nrows a = nrows b ∧
  m = tabulate (nrows a) (ncols a + ncols b)
        (λ i k, if (k <? ncols a)%nat then entry a i k else entry b i (k - ncols a)).
Proof.
  unfold tf.concat1. destruct (Nat.eqb_spec (nrows a) (nrows b)); [| done].
  by intros [= <-].
Qed.

Lemma bias_add_inv m b L :
  tf.bias_add m b = inr L →
  ncols m = length b ∧
  L = tabulate (nrows m) (ncols m) (λ i k, (entry m i k + nth k b 0)%R).
Proof.
  unfold tf.bias_add. destruct (Nat.eqb_spec (ncols m) (length b)); [| done].
  by intros [= <-].
Qed.

(** The four slices, in the order input gate, candidate, forget gate,
    output gate. *)
Lemma split4_inv L n i j f o :
  ncols L = (4 * n)%nat →
  tf.split4 L = inr (i, j, f, o) →
  i = tabulate (nrows L) n (λ r k, entry L r k) ∧
  j = tabulate (nrows L) n (λ r k, entry L r (n + k)) ∧
  f = tabulate (nrows L) n (λ r k, entry L r (2 * n + k)) ∧
  o = tabulate (nrows L) n (λ r k, entry L r (3 * n + k)).
Proof.
  intros Hc. unfold tf.split4. rewrite Hc.
  replace (4 * n)%nat with (n * 4)%nat by lia.
  rewrite Nat.Div0.mod_mul, Nat.div_mul by lia. simpl.
  intros [= <- <- <- <-]. repeat split; apply tabulate_ext; intros; f_equal; lia.
Qed.

(** ** Shapes of the variables *)

Lemma get_variable2_shape name r c init tr s st m st1 :
  vs.get_variable2 name r c init tr s st = (inr m, st1) → nrows m = r ∧ ncols m = c.
Proof.
  unfold vs.get_variable2. intros E. repeat case_match; simplify_eq.
  - match goal with H : _ && _ = true |- _ => apply andb_prop in H as [H1 H2] end.
    split; by apply Nat.eqb_eq.
  - by rewrite length_tabulate_rows.
Qed.

Lemma mapM_Forall {A B} (f : A → M B) (P : B → Prop) l s st bs st' :
  (∀ a s st b st', f a s st = (inr b, st') → P b) →
  mapM f l s st = (inr bs, st') → Forall P bs.
Proof.
  intros Hf. revert s st bs st'. induction l as [| a l IH]; intros s st bs st'; simpl.
  - by intros [= <- _].
  - change (?m ≫= ?g) with (bind m g). unfold bind at 1.
    destruct (f a s st) as [[e | b] st1] eqn:Ea; [done |].
    change (?m ≫= ?g) with (bind m g). unfold bind at 1.
    destruct (mapM f l s st1) as [[e | bs'] st2] eqn:El; [done |].
    intros [= <- _]. constructor; [by eapply Hf | by eapply IH].
Qed.

Lemma get_concat_variable_ncols name r c n s st W st' :
  _get_concat_variable name r c n s st = (inr W, st') → ncols W = c.
Proof.
  unfold _get_concat_variable. change (?m ≫= ?g) with (bind m g). unfold bind.
  destruct (_get_sharded_variable name r c n s st) as [[e | shards] st1] eqn:Es; [done |].
  assert (Forall (λ m, ncols m = c) shards) as Hall.
  { unfold _get_sharded_variable in Es. repeat case_match; try done.
    eapply mapM_Forall; [| exact Es]. intros i ? ? m ? Hm.
    by apply get_variable2_shape in Hm as [_ ?]. }
  destruct shards as [| m [| m' l]].
  - done.
  - intros [= <- _]. by inversion Hall.
  - unfold lift, tf.concat0. case_match; [| done]. intros [= <- _]. simpl.
    by inversion Hall.
Qed.

Ltac solve_stable :=
  repeat first
    [ apply stable_batch_norm | apply stable_lstm_matrix
    | apply stable_peephole_variables | apply stable_cell_output
    | apply stable_project | progress stable_tac ].

Lemma bind_run_inv {A B} (m : M A) (f : A → M B) s st b st' :
  (m ≫= f) s st = (inr b, st') →
  ∃ a st0, m s st = (inr a, st0) ∧ f a s st0 = (inr b, st').
Proof.
  change ((m ≫= f) s st) with (bind m f s st). unfold bind.
  destruct (m s st) as [[e | a] st0]; [done |]. intros E. by exists a, st0.
Qed.

Lemma lift_run_inv {A} (r : res A) s st a st' :
  lift r s st = (inr a, st') → r = inr a ∧ st' = st.
Proof. by intros [= -> ->]. Qed.

(** ** The gate pre-activations *)

Lemma lstm_matrix_ncols self inputs m_prev input_size num_proj scope_name s st L st' :
  lstm_matrix self inputs m_prev input_size num_proj scope_name s st = (inr L, st') →
  ncols L = (4 * _num_units self)%nat.
Proof.
  unfold lstm_matrix. destruct (_bn self).
  - intros E.
    apply bind_run_inv in E as (wi & st1 & _ & E).
    apply bind_run_inv in E as (wr & st2 & _ & E).
    apply bind_run_inv in E as (b & st3 & Hb & E).
    apply bind_run_inv in E as (xi & st4 & _ & E).
    apply bind_run_inv in E as (li & st5 & _ & E).
    apply bind_run_inv in E as (xr & st6 & _ & E).
    apply bind_run_inv in E as (lr & st7 & _ & E).
    apply lift_run_inv in E as [E _].
    apply res_bind_inv in E as (sm & _ & E).
    apply bias_add_inv in E as [Hc ->].
    apply get_variable_value in Hb as [Hl _]. by rewrite ncols_tabulate, Hc.
  - intros E.
    apply bind_run_inv in E as (w & st1 & _ & E).
    apply bind_run_inv in E as (b & st2 & Hb & E).
    apply lift_run_inv in E as [E _].
    apply res_bind_inv in E as (ci & _ & E).
    apply res_bind_inv in E as (xw & _ & E).
    apply bias_add_inv in E as [Hc ->].
    apply get_variable_value in Hb as [Hl _]. by rewrite ncols_tabulate, Hc.
Qed.

(** Without batch normalisation the pre-activations are
    [bias_add(matmul(concat(inputs, m_prev), W), B)] for the stored [W], [B]. *)
Lemma lstm_matrix_plain_inv self inputs m_prev input_size num_proj scope_name s st L :
  _bn self = false →
  reads (lstm_matrix self inputs m_prev input_size num_proj scope_name) s st L →
  ∃ W B cell_inputs xw,
    reads (_get_concat_variable "W" (input_size + num_proj) (4 * _num_units self)
             (_num_unit_shards self)) s st W ∧
    reads (vs.get_variable "B" (4 * _num_units self) (Some zeros_initializer) true) s st B ∧
    tf.concat1 inputs m_prev = inr cell_inputs ∧
    tf.matmul cell_inputs W = inr xw ∧
    tf.bias_add xw B = inr L.
Proof.
  intros Hbn. unfold lstm_matrix. rewrite Hbn. intros E.
  apply reads_bind_inv in E as (W & HW & E); [| solve_stable | intros; solve_stable].
  apply reads_bind_inv in E as (B & HB & E); [| solve_stable | intros; solve_stable].
  apply reads_lift_inv in E.
  apply res_bind_inv in E as (ci & Hci & E).
  apply res_bind_inv in E as (xw & Hxw & E).
  by exists W, B, ci, xw.
Qed.

Lemma lstm_matrix_plain_nrows self inputs m_prev input_size num_proj scope_name s st L :
  _bn self = false →
  reads (lstm_matrix self inputs m_prev input_size num_proj scope_name) s st L →
  nrows L = nrows inputs.
Proof.
  intros Hbn E.
  apply lstm_matrix_plain_inv in E as (W & B & ci & xw & _ & _ & Hci & Hxw & HL); [| done].
  apply concat1_inv in Hci as [_ ->]. apply matmul_inv in Hxw as [_ ->].
  apply bias_add_inv in HL as [_ ->]. by rewrite !length_tabulate_rows.
Qed.

(** ** The peephole weights *)

Lemma peephole_variables_inv self s st peep :
  reads (peephole_variables self) s st peep →
  match peep with
  | None => _use_peepholes self = false
  | Some (w_f, w_i, w_o) =>
      _use_peepholes self = true ∧
      length w_f = _num_units self ∧ length w_i = _num_units self ∧
      length w_o = _num_units self
  end.
Proof.
  unfold peephole_variables. destruct (_use_peepholes self).
  - intros E.
    apply reads_bind_inv in E as (wf & Hf & E); [| solve_stable | intros; solve_stable].
    apply reads_bind_inv in E as (wi & Hi & E); [| solve_stable | intros; solve_stable].
    apply reads_bind_inv in E as (wo & Ho & E); [| solve_stable | intros; solve_stable].
    apply reads_ret_inv in E as <-.
    apply get_variable_value in Hf as [? _]. apply get_variable_value in Hi as [? _].
    apply get_variable_value in Ho as [? _]. done.
  - by intros <-%reads_ret_inv.
Qed.

(** ** The cell update, element by element *)

Lemma cell_update_plain self fi fj ff c_prev b n :
  nrows c_prev = b → ncols c_prev = n →
  cell_update self None (tabulate b n fi) (tabulate b n fj) (tabulate b n ff) c_prev =
  inr (tabulate b n (λ r k,
         (tf.sigmoid (ff r k + _forget_bias self) * entry c_prev r k +
          tf.sigmoid (fi r k) * _activation self (fj r k))%R)).
Proof.
  intros Hr Hc. unfold cell_update, tf.add_scalar, tf.mul, tf.add.
  rewrite !tmap_tabulate.
  rewrite binop_same
    by (by rewrite ?length_tabulate_rows, ?ncols_tabulate).
  cbn [mbind res_mbind res_bind].
  rewrite binop_same
    by (by rewrite ?length_tabulate_rows, ?ncols_tabulate).
  cbn [mbind res_mbind res_bind].
  rewrite binop_same by (by rewrite ?length_tabulate_rows, ?ncols_tabulate).
  rewrite !length_tabulate_rows, !ncols_tabulate. f_equal.
  apply tabulate_ext. intros r k Hr' Hk'. by rewrite !entry_tabulate.
Qed.

Lemma cell_update_peep self w_f w_i w_o fi fj ff c_prev b n :
  nrows c_prev = b → ncols c_prev = n → length w_f = n → length w_i = n →
  cell_update self (Some (w_f, w_i, w_o))
    (tabulate b n fi) (tabulate b n fj) (tabulate b n ff) c_prev =
  inr (tabulate b n (λ r k,
         (tf.sigmoid (ff r k + _forget_bias self + nth k w_f 0 * entry c_prev r k)
            * entry c_prev r k +
          tf.sigmoid (fi r k + nth k w_i 0 * entry c_prev r k)
            * _activation self (fj r k))%R)).
Proof.
  intros Hr Hc Hf Hi. unfold cell_update, tf.add_scalar, tf.mul, tf.add.
  rewrite !tmap_tabulate.
  rewrite !binop_row by congruence. rewrite Hr, Hc.
  cbn [mbind res_mbind res_bind].
  rewrite binop_same
    by (by rewrite ?length_tabulate_rows, ?ncols_tabulate).
  cbn [mbind res_mbind res_bind]. rewrite !tmap_tabulate.
  rewrite !length_tabulate_rows, !ncols_tabulate.
  rewrite binop_same
    by (by rewrite ?length_tabulate_rows, ?ncols_tabulate).
  cbn [mbind res_mbind res_bind].
  rewrite binop_same
    by (by rewrite ?length_tabulate_rows, ?ncols_tabulate).
  cbn [mbind res_mbind res_bind]. rewrite !tmap_tabulate.
  rewrite binop_same
    by (by rewrite ?length_tabulate_rows, ?ncols_tabulate).
  cbn [mbind res_mbind res_bind].
  rewrite binop_same by (by rewrite ?length_tabulate_rows, ?ncols_tabulate).
  rewrite !length_tabulate_rows, !ncols_tabulate. f_equal.
  apply tabulate_ext. intros r k Hr' Hk'. by rewrite !entry_tabulate.
Qed.

Lemma clip_cell_tabulate self b n g :
  clip_cell self (tabulate b n g) = tabulate b n (λ r k, clip_scalar self (g r k)).
Proof.
  unfold clip_cell, clip_scalar. destruct (_cell_clip self) as [K |]; [| done].
  unfold tf.clip_by_value. by rewrite tmap_tabulate.
Qed.

(** ** A successful step without batch normalisation *)

Lemma call_plain_inv self inputs c_prev m_prev scope s st out ns g st' :
  _bn self = false →
  nrows c_prev = nrows (value inputs) → ncols c_prev = _num_units self →
  __call__ self inputs (c_prev, m_prev) scope s st = (inr (out, ns, g), st') →
  ∃ dims input_size W B cell_inputs xw L peep m0,
    with_rank (get_shape inputs) 2 = inr dims ∧
    nth 1 dims None = Some input_size ∧
    reads (_get_concat_variable "W" (input_size + num_proj_of self) (4 * _num_units self)
             (_num_unit_shards self)) (inner_scope self scope s) st' W ∧
    reads (vs.get_variable "B" (4 * _num_units self) (Some zeros_initializer) true)
      (inner_scope self scope s) st' B ∧
    tf.concat1 (value inputs) m_prev = inr cell_inputs ∧
    tf.matmul cell_inputs W = inr xw ∧
    tf.bias_add xw B = inr L ∧
    nrows L = nrows (value inputs) ∧
    reads (peephole_variables self) (inner_scope self scope s) st' peep ∧
    g = (if _return_gate self then Some (spec_gates (_num_units self) L) else None) ∧
    c ns = tabulate (nrows (value inputs)) (_num_units self)
             (λ r k, clip_scalar self (spec_cell_state self peep L c_prev r k)) ∧
    reads (cell_output self peep (spec_gates (_num_units self) L).2 (c ns)
             (scope_name_of scope)) (inner_scope self scope s) st' m0 ∧
    reads (project self m0) (inner_scope self scope s) st' out ∧
    ncols L = (4 * _num_units self)%nat.
Proof.
  intros Hbn Hr Hc E.
  apply call_inv in E as (dims & input_size & gs & Hd & Hn & E & Hh & Hg).
  apply step_inv in E as (L & peep & c0 & m0 & HL & Hs & Hp & Hu & Hcl & Ho & Hpr).
  pose proof (lstm_matrix_ncols _ _ _ _ _ _ _ _ _ _ HL) as HLc.
  pose proof (lstm_matrix_plain_nrows _ _ _ _ _ _ _ _ _ Hbn HL) as HLr.
  destruct gs as [[[i j] f] o].
  destruct (split4_inv _ _ _ _ _ _ HLc Hs) as (-> & -> & -> & ->).
  apply lstm_matrix_plain_inv in HL as (W & B & ci & xw & HW & HB & Hci & Hxw & HLb);
    [| done].
  exists dims, input_size, W, B, ci, xw, L, peep, m0.
  fold (spec_gates (_num_units self) L) in *.
  repeat split; try done.
  rewrite Hcl. simpl in Hu. rewrite HLr in Hu.
  pose proof (peephole_variables_inv _ _ _ _ Hp) as Hpv.
  destruct peep as [[[w_f w_i] w_o] |].
  - destruct Hpv as (_ & Hf & Hi & _).
    rewrite (cell_update_peep self w_f w_i w_o _ _ _ c_prev _ _ Hr Hc Hf Hi) in Hu.
    injection Hu as <-. rewrite clip_cell_tabulate. apply tabulate_ext.
    intros r k _ _. unfold spec_cell_state. done.
  - rewrite (cell_update_plain self _ _ _ c_prev _ _ Hr Hc) in Hu.
    injection Hu as <-. rewrite clip_cell_tabulate. apply tabulate_ext.
    intros r k _ _. unfold spec_cell_state. done.
Qed.

(** ** Feature widths *)

Lemma has_width_tabulate r c f : has_width (tabulate r c f) c.
Proof. split; [done | apply wf_tabulate]. Qed.

Lemma binop_width name f a b m n :
  ncols a = n → ncols b = n → tf.binop name f a b = inr m → has_width m n.
Proof.
  intros Ha Hb (r & c & _ & Hc & ->)%binop_inv.
  rewrite Ha, Hb, broadcast_dim_same in Hc. injection Hc as <-. apply has_width_tabulate.
Qed.

Lemma has_width_tmap g m n : has_width m n → has_width (tf.tmap g m) n.
Proof.
  intros [Hc Hw]. split; [done |]. unfold tf.tmap; simpl.
  apply List.Forall_map. eapply List.Forall_impl; [| exact Hw].
  intros row Hl. cbn beta in Hl. by rewrite length_map.
Qed.

Lemma ncols_of_vector v : ncols (of_vector v) = length v.
Proof. reflexivity. Qed.

Lemma cell_update_width self peep i j f c_prev c0 n :
  ncols i = n → ncols j = n → ncols f = n → ncols c_prev = n →
  match peep with
  | Some (w_f, w_i, _) => length w_f = n ∧ length w_i = n
  | None => True
  end →
  cell_update self peep i j f c_prev = inr c0 → has_width c0 n.
Proof.
  intros Hi Hj Hf Hc Hp. unfold cell_update, tf.mul, tf.add.
  destruct peep as [[[w_f w_i] w_o] |].
  - destruct Hp as [Hwf Hwi]. intros E.
    apply res_bind_inv in E as (pf & Hpf & E).
    apply res_bind_inv in E as (zf & Hzf & E).
    apply res_bind_inv in E as (keep & Hkeep & E).
    apply res_bind_inv in E as (pi & Hpi & E).
    apply res_bind_inv in E as (zi & Hzi & E).
    apply res_bind_inv in E as (new & Hnew & E).
    apply (binop_width _ _ _ _ _ n) in Hpf as [Hpf _]; [| done..].
    apply (binop_width _ _ _ _ _ n) in Hzf as [Hzf _]; [| done..].
    apply (binop_width _ _ _ _ _ n) in Hkeep as [Hkeep _]; [| done..].
    apply (binop_width _ _ _ _ _ n) in Hpi as [Hpi _]; [| done..].
    apply (binop_width _ _ _ _ _ n) in Hzi as [Hzi _]; [| done..].
    apply (binop_width _ _ _ _ _ n) in Hnew as [Hnew _]; [| done..].
    by apply (binop_width _ _ _ _ _ n) in E.
  - intros E.
    apply res_bind_inv in E as (keep & Hkeep & E).
    apply res_bind_inv in E as (new & Hnew & E).
    apply (binop_width _ _ _ _ _ n) in Hkeep as [Hkeep _]; [| done..].
    apply (binop_width _ _ _ _ _ n) in Hnew as [Hnew _]; [| done..].
    by apply (binop_width _ _ _ _ _ n) in E.
Qed.

Lemma clip_cell_width self c0 n : has_width c0 n → has_width (clip_cell self c0) n.
Proof.
  unfold clip_cell. destruct (_cell_clip self); [| done]. apply has_width_tmap.
Qed.

Lemma output_gate_width peep o c og n :
  ncols o = n → ncols c = n →
  match peep with Some (_, _, w_o) => length w_o = n | None => True end →
  output_gate peep o c = inr og → ncols og = n.
Proof.
  intros Ho Hc Hp. unfold output_gate, tf.mul, tf.add.
  destruct peep as [[[w_f w_i] w_o] |].
  - intros E.
    apply res_bind_inv in E as (po & Hpo & E).
    apply res_bind_inv in E as (zo & Hzo & E). injection E as <-.
    apply (binop_width _ _ _ _ _ n) in Hpo as [Hpo _]; [| done..].
    by apply (binop_width _ _ _ _ _ n) in Hzo as [Hzo _].
  - by intros [= <-].
Qed.

Lemma length_binop1 name f u v w n :
  length u = n → length v = n → binop1 name f u v = inr w → length w = n.
Proof.
  intros Hu Hv. rewrite binop1_same by congruence. intros [= <-].
  by rewrite length_map, length_seq.
Qed.

Lemma used_statistics_length x det alpha mean var z z0 stats :
  length mean = ncols x → length var = ncols x →
  used_statistics x det alpha mean var z z0 = inr stats →
  length stats.1 = ncols x ∧ length stats.2 = ncols x.
Proof.
  intros Hm Hv. unfold used_statistics, tf.moments.
  set (bm := map _ (seq 0 (ncols x))). set (bv := map _ (seq 0 (ncols x))).
  assert (length bm = ncols x) as Hbm by (by unfold bm; rewrite length_map, length_seq).
  assert (length bv = ncols x) as Hbv by (by unfold bv; rewrite length_map, length_seq).
  assert (∀ m v, length m = ncols x → length v = ncols x →
            (if det then inr (m, v)
             else mean' ← binop1 "Add" Rplus (map (Rmult (1 - alpha)) bm) (map (Rmult alpha) m);
                  var' ← binop1 "Add" Rplus (map (Rmult (1 - alpha)) bv) (map (Rmult alpha) v);
                  mret (mean', var')) = inr stats →
            length stats.1 = ncols x ∧ length stats.2 = ncols x) as Hgen.
  { intros m v Hlm Hlv. destruct det; [by intros [= <-] |]. intros E.
    apply res_bind_inv in E as (m' & Hm' & E).
    apply res_bind_inv in E as (v' & Hv' & E). injection E as <-. simpl.
    split.
    - eapply length_binop1; [| | exact Hm']; by rewrite length_map.
    - eapply length_binop1; [| | exact Hv']; by rewrite length_map. }
  destruct (z =? z0)%Z; by apply Hgen.
Qed.

Lemma batch_normalization_width x mean var beta gamma eps normed :
  length mean = ncols x → length var = ncols x →
  length beta = ncols x → length gamma = ncols x →
  tf.batch_normalization x mean var beta gamma eps = inr normed →
  has_width normed (ncols x).
Proof.
  intros Hm Hv Hb Hg. unfold tf.batch_normalization, tf.mul, tf.sub, tf.add. intros E.
  apply res_bind_inv in E as (inv & Hinv & E).
  apply res_bind_inv in E as (xi & Hxi & E).
  apply res_bind_inv in E as (mi & Hmi & E).
  apply res_bind_inv in E as (sh & Hsh & E).
  apply (binop_width _ _ _ _ _ (ncols x)) in Hinv as [Hinv _]; [| done..].
  apply (binop_width _ _ _ _ _ (ncols x)) in Hxi as [Hxi _]; [| done..].
  apply (binop_width _ _ _ _ _ (ncols x)) in Hmi as [Hmi _]; [| done..].
  apply (binop_width _ _ _ _ _ (ncols x)) in Hsh as [Hsh _]; [| done..].
  by apply (binop_width _ _ _ _ _ (ncols x)) in E.
Qed.

Lemma batch_norm_width x det alpha shift scope s st normed st' :
  batch_norm x det alpha shift scope s st = (inr normed, st') →
  has_width normed (ncols x).
Proof.
  destruct det as [det |].
  - intros E. apply batch_norm_inv in E
      as (beta & gamma & mean & var & stats & _ & _ & _ & _ & _ & _ & Hs & Hn
          & Lb & Lg & Lm & Lv).
    destruct (used_statistics_length _ _ _ _ _ _ _ _ Lm Lv Hs) as [L1 L2].
    eapply (batch_normalization_width x stats.1 stats.2 beta gamma);
      [exact L1 | exact L2 | exact Lb | exact Lg | exact Hn].
  - unfold batch_norm, vs.variable_scope. intros E.
    do 6 (apply bind_run_inv in E as (? & ? & _ & E)).
    destruct (tf.moments x) as [bm bv].
    apply bind_run_inv in E as ([m1 v1] & ? & _ & E).
    apply bind_run_inv in E as (? & ? & E & _). by unfold cond, raise in E.
Qed.

Lemma cell_output_width self peep o c scope_name s st m0 st' n :
  ncols o = n → ncols c = n →
  match peep with Some (_, _, w_o) => length w_o = n | None => True end →
  cell_output self peep o c scope_name s st = (inr m0, st') → has_width m0 n.
Proof.
  intros Ho Hc Hp. unfold cell_output. intros E.
  apply bind_run_inv in E as (og & st1 & [Hog ->]%lift_run_inv & E).
  apply (output_gate_width _ _ _ _ n) in Hog; [| done..].
  destruct (_bn self).
  - apply bind_run_inv in E as (normed & st2 & Hbn & [E _]%lift_run_inv).
    apply batch_norm_width in Hbn as [Hbn _]. rewrite Hc in Hbn.
    by apply (binop_width _ _ _ _ _ n) in E.
  - apply lift_run_inv in E as [E _].
    by apply (binop_width _ _ _ _ _ n) in E.
Qed.

Lemma project_width self m0 s st out st' :
  has_width m0 (_num_units self) →
  project self m0 s st = (inr out, st') → has_width out (num_proj_of self).
Proof.
  intros Hm. unfold project, num_proj_of. destruct (_num_proj self) as [p |].
  - intros E.
    apply bind_run_inv in E as (W & st1 & HW & [E _]%lift_run_inv).
    apply get_concat_variable_ncols in HW. apply matmul_inv in E as [_ ->].
    rewrite HW. apply has_width_tabulate.
  - by intros [= <- _].
Qed.

(** The widths of what a successful step returns. *)
Lemma call_widths self inputs c_prev m_prev scope s st out ns g st' :
  ncols c_prev = _num_units self →
  __call__ self inputs (c_prev, m_prev) scope s st = (inr (out, ns, g), st') →
  has_width out (num_proj_of self) ∧
  has_width (c ns) (_num_units self) ∧
  has_width (h ns) (num_proj_of self).
Proof.
  intros Hc E.
  apply call_inv in E as (dims & input_size & gs & _ & _ & E & Hh & _).
  apply step_inv in E as (L & peep & c0 & m0 & HL & Hs & Hp & Hu & Hcl & Ho & Hpr).
  pose proof (lstm_matrix_ncols _ _ _ _ _ _ _ _ _ _ HL) as HLc.
  destruct gs as [[[i j] f] o].
  destruct (split4_inv _ _ _ _ _ _ HLc Hs) as (-> & -> & -> & ->).
  apply peephole_variables_inv in Hp. simpl in Hu, Ho.
  assert (has_width c0 (_num_units self)) as Hc0.
  { eapply cell_update_width; [.. | exact Hu]; try done.
    destruct peep as [[[? ?] ?] |]; [| done]. by destruct Hp as (_ & ? & ? & _). }
  assert (has_width (c ns) (_num_units self)) as Hcn
    by (rewrite Hcl; by apply clip_cell_width).
  assert (has_width m0 (_num_units self)) as Hm0.
  { eapply cell_output_width; [.. | exact Ho]; try done; [by destruct Hcn |].
    destruct peep as [[[? ?] ?] |]; [| done]. by destruct Hp as (_ & _ & _ & ?). }
  assert (has_width out (num_proj_of self)) as Hout by (by eapply project_width).
  rewrite Hh. done.
Qed.

(** ** Zero weights *)

Lemma entry_tabulate_cases r c f i k :
  entry (tabulate r c f) i k = if ((i <? r) && (k <? c))%nat then f i k else 0%R.
Proof.
  destruct (Nat.ltb_spec i r) as [Hi | Hi]; simpl.
  - destruct (Nat.ltb_spec k c) as [Hk | Hk]; [by apply entry_tabulate |].
    unfold entry, tabulate; simpl.
    rewrite (nth_indep _ [] (map (λ k, f 0%nat k) (seq 0 c)))
      by (by rewrite length_map, length_seq).
    rewrite (map_nth (λ i, map (λ k, f i k) (seq 0 c)) (seq 0 r) 0%nat i).
    apply nth_overflow. by rewrite length_map, length_seq.
  - unfold entry, tabulate; simpl.
    rewrite (nth_overflow _ [] (n := i)) by (by rewrite length_map, length_seq).
    by destruct k.
Qed.

Lemma entry_zeros r c i k : entry (zeros r c) i k = 0%R.
Proof. unfold zeros. rewrite entry_tabulate_cases. by destruct (_ && _). Qed.

Lemma Rsum_zero n f : (∀ p, (p < n)%nat → f p = 0%R) → Rsum n f = 0%R.
Proof.
  intros H. unfold Rsum.
  assert (∀ l, (∀ p, In p l → f p = 0%R) → fold_right Rplus 0%R (map f l) = 0%R) as Hl.
  { induction l as [| a l IH]; simpl; [done |]. intros Hin.
    rewrite Hin by (by left). rewrite IH by (intros; apply Hin; by right). lra. }
  apply Hl. intros p Hp%in_seq. apply H. lia.
Qed.

Lemma gates_eq (a b c d a' b' c' d' : matrix) :
  a = a' → b = b' → c = c' → d = d' → (a, b, c, d) = (a', b', c', d').
Proof. congruence. Qed.

Lemma split4_spec_gates L n :
  ncols L = (4 * n)%nat → tf.split4 L = inr (spec_gates n L).
Proof.
  intros Hc. unfold tf.split4, spec_gates. rewrite Hc.
  replace (4 * n)%nat with (n * 4)%nat by lia.
  rewrite Nat.Div0.mod_mul, Nat.div_mul by lia. simpl.
  f_equal. apply gates_eq; apply tabulate_ext; intros; f_equal; lia.
Qed.

Lemma sigmoid_0 : tf.sigmoid 0 = (1 / 2)%R.
Proof. unfold tf.sigmoid. rewrite Ropp_0, exp_0. lra. Qed.

Lemma tanh_zero : tanh 0 = 0%R.
Proof. unfold tanh. rewrite sinh_0. unfold Rdiv. apply Rmult_0_l. Qed.

Lemma clip_scalar_0 self :
  match _cell_clip self with Some K => (0 <= K)%R | None => True end →
  clip_scalar self 0 = 0%R.
Proof.
  unfold clip_scalar. destruct (_cell_clip self) as [K |]; [| done].
  intros HK. unfold Rmax, Rmin. repeat destruct (Rle_dec _ _); lra.
Qed.

(** With zero weights, zero bias and a zero previous cell state, the gate
    pre-activations are zero and every entry of the new cell state is
    [sigmoid(0) * activation(0)], clipped. *)
Lemma call_zero_weights self inputs m_prev scope s st out ns g st' :
  _bn self = false → _use_peepholes self = false →
  weights_read_zero self scope s st' →
  __call__ self inputs (zeros (nrows (value inputs)) (_num_units self), m_prev) scope s st
    = (inr (out, ns, g), st') →
  ∃ W B cell_inputs xw L m0,
    tf.concat1 (value inputs) m_prev = inr cell_inputs ∧
    tf.matmul cell_inputs W = inr xw ∧
    tf.bias_add xw B = inr L ∧
    tf.split4 L = inr (spec_gates (_num_units self) L) ∧
    spec_gates (_num_units self) L =
      (zeros (nrows (value inputs)) (_num_units self),
       zeros (nrows (value inputs)) (_num_units self),
       zeros (nrows (value inputs)) (_num_units self),
       zeros (nrows (value inputs)) (_num_units self)) ∧
    g = (if _return_gate self then Some (spec_gates (_num_units self) L) else None) ∧
    c ns = tabulate (nrows (value inputs)) (_num_units self)
             (λ _ _, clip_scalar self (tf.sigmoid 0 * _activation self 0)) ∧
    tf.mul (tf.tmap tf.sigmoid (zeros (nrows (value inputs)) (_num_units self)))
           (tf.tmap (_activation self) (c ns)) = inr m0 ∧
    reads (project self m0) (inner_scope self scope s) st' out ∧
    h ns = out.
Proof.
  intros Hbn Hpeep [HWz HBz] E.
  pose proof E as Hh. apply call_inv in Hh as (_ & _ & _ & _ & _ & _ & Hh & _).
  apply call_plain_inv in E
    as (dims & n & W & B & ci & xw & L & peep & m0 & Hd & Hn & HW & HB & Hci & Hxw & HL
        & HLr & Hp & Hg & Hcs & Ho & Hpr & HLc);
    [| done | by unfold zeros; rewrite length_tabulate_rows | done].
  specialize (HWz _ _ HW). specialize (HBz _ HB).
  assert (∀ r q, entry L r q = 0%R) as HL0.
  { intros r q. apply bias_add_inv in HL as [_ ->]. apply matmul_inv in Hxw as [_ ->].
    rewrite entry_tabulate_cases. destruct (_ && _); [| done].
    rewrite HBz, entry_tabulate_cases. destruct (_ && _); [| lra].
    rewrite Rsum_zero; [lra |]. intros p _. rewrite HWz. lra. }
  assert (spec_gates (_num_units self) L =
            (zeros (nrows (value inputs)) (_num_units self),
             zeros (nrows (value inputs)) (_num_units self),
             zeros (nrows (value inputs)) (_num_units self),
             zeros (nrows (value inputs)) (_num_units self))) as Hgz.
  { unfold spec_gates, zeros. rewrite HLr.
    apply gates_eq; apply tabulate_ext; intros; apply HL0. }
  apply peephole_variables_inv in Hp.
  destruct peep as [[[? ?] ?] |]; [destruct Hp; congruence |].
  assert (c ns = tabulate (nrows (value inputs)) (_num_units self)
                   (λ _ _, clip_scalar self (tf.sigmoid 0 * _activation self 0))) as Hc.
  { rewrite Hcs. apply tabulate_ext. intros r k _ _. f_equal.
    unfold spec_cell_state. rewrite !HL0, entry_zeros. lra. }
  rewrite Hgz in Ho. cbn [snd] in Ho.
  unfold cell_output in Ho. rewrite Hbn in Ho.
  apply reads_bind_inv in Ho as (og & Hog & Ho); [| solve_stable | intros; solve_stable].
  apply reads_lift_inv in Hog. apply reads_lift_inv in Ho.
  injection Hog as <-.
  exists W, B, ci, xw, L, m0. repeat split; try done.
  by apply split4_spec_gates.
Qed.

(** * The claims *)

(** ** Batch normalisation *)

(** C1 (the code departs from it).  A training-mode call on a fresh store,
    with the batch [[1], [3]] (batch mean 2, batch variance 1), leaves the
    stored running mean at its initial value 0 (not 0.1*2 + 0.9*0), the
    stored running variance at 1 and the stored counter at 0 (not 1); a
    second training-mode call finds the store exactly as the first left
    it.  The blended statistics and the incremented counter are only bound
    to local names. *)
Theorem batch_norm_training_keeps_stored_statistics :
  let first := batch_norm two_rows (Some false) (9 / 10) true "bn" root_scope ∅ in
  let second := batch_norm two_rows (Some false) (9 / 10) true "bn" root_scope first.2 in
  is_ok first.1 = true ∧
  holds first.2 "bn/bn_mean" (Float1 [0%R]) ∧
  holds first.2 "bn/bn_var" (Float1 [1%R]) ∧
  holds first.2 "bn/bn_counter" (Int64 0) ∧
  second = first.
Proof.
  cbv zeta.
  destruct (batch_norm two_rows (Some false) (9 / 10) true "bn" root_scope ∅)
    as [[e | normed] st1] eqn:E.
  { assert (is_ok (batch_norm two_rows (Some false) (9 / 10) true "bn" root_scope ∅).1
            = true) as H by (vm_compute; reflexivity).
    by rewrite E in H. }
  split; [done |].
  simpl.
  assert (st1 = (batch_norm two_rows (Some false) (9 / 10) true "bn" root_scope ∅).2)
    as Hst by (by rewrite E).
  split; [| split; [| split]].
  - exists false. rewrite Hst. vm_compute. reflexivity.
  - exists false. rewrite Hst. vm_compute. reflexivity.
  - exists false. rewrite Hst. vm_compute. reflexivity.
  - destruct (stable_batch_norm _ _ _ _ _ _ _ _ _ E) as [_ Hre]. by apply Hre.
Qed.

(** C2.  On a first call (the stored counter and the zero sentinel both
    read 0), a successful [batch_norm] normalises with the batch mean and
    batch variance of [x], whatever the deterministic flag. *)
Theorem batch_norm_first_call_uses_batch_statistics
    (x : matrix) (det : bool) (alpha : R) (shift : bool) (scope : string)
    (s : VariableScope) (st st' : gmap string variable) (normed : matrix) :
  counter_value st s scope = 0%Z →
  zero_cnt_value st s scope = 0%Z →
  batch_norm x (Some det) alpha shift scope s st = (inr normed, st') →
  ∃ beta gamma,
    holds st' (bn_name s scope "_beta") (Float1 beta) ∧
    holds st' (bn_name s scope "_gamma") (Float1 gamma) ∧
    tf.batch_normalization x (tf.moments x).1 (tf.moments x).2 beta gamma
      (1 / 100000000) = inr normed.
Proof.
  intros Hc Hz E.
  apply batch_norm_inv in E
    as (beta & gamma & mean & var & stats & Hb & Hg & _ & _ & _ & _ & Hs & Hn & _).
  rewrite Hc, Hz, used_statistics_first_call in Hs. injection Hs as <-.
  by exists beta, gamma.
Qed.

Lemma batch_norm_first_call_uses_batch_statistics_witness :
  ∃ beta gamma,
    holds (batch_norm two_rows (Some false) (9 / 10) true "bn" root_scope ∅).2
      (bn_name root_scope "bn" "_beta") (Float1 beta) ∧
    holds (batch_norm two_rows (Some false) (9 / 10) true "bn" root_scope ∅).2
      (bn_name root_scope "bn" "_gamma") (Float1 gamma) ∧
    tf.batch_normalization two_rows (tf.moments two_rows).1 (tf.moments two_rows).2
      beta gamma (1 / 100000000)
    = (batch_norm two_rows (Some false) (9 / 10) true "bn" root_scope ∅).1.
Proof.
  destruct (batch_norm two_rows (Some false) (9 / 10) true "bn" root_scope ∅)
    as [[e | normed] st1] eqn:E.
  - assert (is_ok (batch_norm two_rows (Some false) (9 / 10) true "bn" root_scope ∅).1
            = true) as H by (vm_compute; reflexivity).
    rewrite E in H. discriminate H.
  - apply (batch_norm_first_call_uses_batch_statistics two_rows false (9 / 10) true "bn"
             root_scope ∅ st1 normed); [reflexivity | reflexivity | exact E].
Defined.

(** C6.  Two evaluation-mode calls in a row on the same input: the second
    returns what the first returned and leaves the store as the first left
    it. *)
Theorem batch_norm_eval_twice_identical
    (x : matrix) (alpha : R) (shift : bool) (scope : string)
    (s : VariableScope) (st : gmap string variable) :
  let first := batch_norm x (Some true) alpha shift scope s st in
  batch_norm x (Some true) alpha shift scope s first.2 = first.
Proof.
  cbv zeta. destruct (batch_norm x (Some true) alpha shift scope s st) as [r st1] eqn:E.
  destruct (stable_batch_norm _ _ _ _ _ _ _ _ _ E) as [_ Hre]. by apply Hre.
Qed.

(** ** The shape check of [__call__] *)

Lemma call_shape_check self inputs state scope s st :
  match get_shape inputs with
  | None | Some [_; None] =>
      __call__ self inputs state scope s st = (inl (ValueError msg_infer), st)
  | Some [_; Some _] =>
      ∀ e, (__call__ self inputs state scope s st).1 = inl e → later_error e
  | Some _ =>
      __call__ self inputs state scope s st = (inl (ValueError msg_rank), st)
  end.
Proof.
  destruct state as [c_prev m_prev]. unfold __call__.
  destruct (get_shape inputs) as [[| d0 [| [n |] [| d2 dims]]] |]; try reflexivity.
  intros e He.
  match type of He with (?m ?s ?st).1 = _ => destruct (m s st) as [r st'] eqn:E end.
  simpl in He. subst r. revert E. cbn [with_rank length Nat.eqb].
  change (lift (inr [d0; Some n]) ≫= ?f) with (f [d0; Some n]). cbn [nth].
  apply only_later_bind.
  - apply only_later_variable_scope, only_later_step.
  - intros [[c m] g]. destruct (negb _); apply only_later_ret.
Qed.

(** C5 (as the code has it).  [__call__] raises the "could not infer"
    ValueError exactly when the static rank of the input is unknown or the
    shape is [[d0, ?]]; it raises the rank ValueError of [with_rank(2)]
    exactly when the static rank is known and is not 2; in both cases the
    store is left as it was (no variable has been created). *)
Theorem call_shape_errors
    (self : LSTMCell) (inputs : Tensor) (state : matrix * matrix)
    (scope : option string) (s : VariableScope) (st : gmap string variable) :
  let r := __call__ self inputs state scope s st in
  (r.1 = inl (ValueError msg_infer) ↔
     get_shape inputs = None ∨ ∃ d0, get_shape inputs = Some [d0; None]) ∧
  (r.1 = inl (ValueError msg_rank) ↔
     ∃ dims, get_shape inputs = Some dims ∧ length dims ≠ 2%nat) ∧
  (r.1 = inl (ValueError msg_infer) ∨ r.1 = inl (ValueError msg_rank) → r.2 = st).
Proof.
  cbv zeta. pose proof (call_shape_check self inputs state scope s st) as H.
  destruct (get_shape inputs) as [[| d0 [| [n |] [| d2 dims]]] |] eqn:Es.
  all: try (rewrite H; simpl; split; [| split];
            [ split; [done | intros [? | [? ?]]; done]
            | split; [done | intros (? & [= <-] & Hl); simpl in Hl; lia]
            | done ]).
  all: try (rewrite H; simpl; split; [| split];
            [ split; [done | intros [? | [? ?]]; done]
            | split; [intros _; eexists; split; [done | simpl; lia] | done]
            | done ]).
  - split; [| split].
    + split; [intros He; by destruct (H _ He) as [? _] | intros [? | [? ?]]; done].
    + split; [intros He; by destruct (H _ He) as [_ ?]
             | intros (? & [= <-] & Hl); simpl in Hl; lia].
    + intros [He | He]; by destruct (H _ He).
  - rewrite H; simpl; split; [| split].
    + split; [intros _; right; by eexists | done].
    + split; [done | intros (? & [= <-] & Hl); simpl in Hl; lia].
    + done.
  - rewrite H; simpl; split; [| split].
    + split; [intros _; by left | done].
    + split; [done | by intros (? & ? & _)].
    + done.
Qed.

(** C5, as stated, fails: an input of static shape [[2, 3, 4]] has a known
    last dimension, and [__call__] raises a ValueError on it. *)
Lemma call_rank3_raises_with_known_last_dim :
  last_dim_unknown (get_shape rank3_input) = false ∧
  raises_ValueError
    (__call__ unit_cell rank3_input (zeros 6 1, zeros 6 1) None root_scope ∅).1 = true.
Proof. split; reflexivity. Qed.

(** ** Output and state *)

(** C10.  On success the returned output is the [h] component of the
    returned state, with or without the gates. *)
Theorem call_output_is_state_h
    (self : LSTMCell) (inputs : Tensor) (state : matrix * matrix)
    (scope : option string) (s : VariableScope) (st st' : gmap string variable)
    (out : matrix) (ns : LSTMStateTuple) (g : option gates) :
  __call__ self inputs state scope s st = (inr (out, ns, g), st') →
  h ns = out.
Proof.
  destruct state as [c_prev m_prev]. intros E.
  apply call_inv in E as (dims & n & gs & _ & _ & _ & Hh & _). exact Hh.
Qed.

Lemma unit_call_ok :
  is_ok (__call__ unit_cell unit_input (zeros 1 1, zeros 1 1) None root_scope ∅).1 = true.
Proof. vm_compute. reflexivity. Qed.

Lemma call_output_is_state_h_witness :
  ∃ out ns g st',
    __call__ unit_cell unit_input (zeros 1 1, zeros 1 1) None root_scope ∅
      = (inr (out, ns, g), st') ∧
    h ns = out.
Proof.
  destruct (__call__ unit_cell unit_input (zeros 1 1, zeros 1 1) None root_scope ∅)
    as [[e | [[out ns] g]] st'] eqn:E.
  - pose proof unit_call_ok as H. rewrite E in H. discriminate H.
  - exists out, ns, g, st'. split; [reflexivity |].
    exact (call_output_is_state_h unit_cell unit_input (zeros 1 1, zeros 1 1) None
             root_scope ∅ st' out ns g E).
Defined.

(** ** The cell state *)

(** C3.  Without batch normalisation, for a previous cell state of the
    batch's height and of width [num_units], the cell state returned by a
    successful step is, entry by entry,
    [sigmoid(f + forget_bias) * c_prev + sigmoid(i) * activation(j)]
    (clipped when [cell_clip] is set), where [i], [j], [f] are the first
    three of the four equal-width slices of
    [bias_add(matmul(concat(inputs, m_prev), W), B)]; with peepholes the
    forget and input gates receive [w_f_diag * c_prev] and
    [w_i_diag * c_prev] inside the sigmoid. *)
Theorem call_cell_state_formula
    (self : LSTMCell) (inputs : Tensor) (c_prev m_prev : matrix)
    (scope : option string) (s : VariableScope) (st st' : gmap string variable)
    (out : matrix) (ns : LSTMStateTuple) (g : option gates) :
  _bn self = false →
  nrows c_prev = nrows (value inputs) →
  ncols c_prev = _num_units self →
  __call__ self inputs (c_prev, m_prev) scope s st = (inr (out, ns, g), st') →
  cell_state_as_specified self inputs c_prev m_prev scope s st' ns.
Proof.
  intros Hbn Hr Hc E.
  apply call_plain_inv in E
    as (dims & n & W & B & ci & xw & L & peep & m0 & Hd & Hn & HW & HB & Hci & Hxw & HL
        & _ & Hp & _ & Hcs & _); [| done..].
  exists dims, n, W, B, ci, xw, L, peep. repeat split; try done.
  - intros Hf. apply peephole_variables_inv in Hp.
    destruct peep as [[[? ?] ?] |]; [destruct Hp; congruence | done].
  - intros Ht. apply peephole_variables_inv in Hp.
    destruct peep as [[[w_f w_i] w_o] |]; [by exists w_f, w_i, w_o | congruence].
  - intros r k Hrk Hk. rewrite Hcs. by rewrite entry_tabulate.
Qed.

Lemma call_cell_state_formula_witness :
  ∃ out ns g st',
    __call__ unit_cell unit_input (zeros 1 1, zeros 1 1) None root_scope ∅
      = (inr (out, ns, g), st') ∧
    cell_state_as_specified unit_cell unit_input (zeros 1 1) (zeros 1 1) None
      root_scope st' ns.
Proof.
  destruct (__call__ unit_cell unit_input (zeros 1 1, zeros 1 1) None root_scope ∅)
    as [[e | [[out ns] g]] st'] eqn:E.
  - pose proof unit_call_ok as H. rewrite E in H. discriminate H.
  - exists out, ns, g, st'. split; [reflexivity |].
    apply (call_cell_state_formula unit_cell unit_input (zeros 1 1) (zeros 1 1) None
             root_scope ∅ st' out ns g);
      [reflexivity | reflexivity | reflexivity | exact E].
Defined.

Lemma clip_within (K v : R) : (0 <= K)%R → (- K <= Rmax (Rmin v K) (- K) <= K)%R.
Proof. intros HK. unfold Rmax, Rmin. repeat destruct (Rle_dec _ _); lra. Qed.

Lemma clip_negative (K v : R) : (K < 0)%R → Rmax (Rmin v K) (- K) = (- K)%R.
Proof. intros HK. unfold Rmax, Rmin. repeat destruct (Rle_dec _ _); lra. Qed.

(** C4 (as the code has it).  With [cell_clip] set to a non-negative [K],
    every element of the cell state returned by a successful step lies in
    [[-K, K]]. *)
Theorem call_cell_state_clipped
    (self : LSTMCell) (inputs : Tensor) (state : matrix * matrix)
    (scope : option string) (s : VariableScope) (st st' : gmap string variable)
    (out : matrix) (ns : LSTMStateTuple) (g : option gates) (K : R) :
  _cell_clip self = Some K →
  (0 <= K)%R →
  __call__ self inputs state scope s st = (inr (out, ns, g), st') →
  all_within (- K) K (c ns).
Proof.
  intros HK Hpos E. destruct state as [c_prev m_prev].
  apply call_inv in E as (dims & n & gs & _ & _ & E & _).
  apply step_inv in E as (L & peep & c0 & m0 & _ & _ & _ & _ & -> & _).
  unfold all_within, clip_cell. rewrite HK. unfold tf.clip_by_value, tf.tmap. simpl.
  apply List.Forall_map, List.Forall_forall. intros row _.
  apply List.Forall_map, List.Forall_forall. intros v _. by apply clip_within.
Qed.

Lemma clip5_call_ok :
  is_ok (__call__ clip5_cell unit_input (zeros 1 1, zeros 1 1) None root_scope ∅).1 = true.
Proof. vm_compute. reflexivity. Qed.

Lemma call_cell_state_clipped_witness :
  ∃ out ns g st',
    __call__ clip5_cell unit_input (zeros 1 1, zeros 1 1) None root_scope ∅
      = (inr (out, ns, g), st') ∧
    all_within (- 5) 5 (c ns).
Proof.
  destruct (__call__ clip5_cell unit_input (zeros 1 1, zeros 1 1) None root_scope ∅)
    as [[e | [[out ns] g]] st'] eqn:E.
  - pose proof clip5_call_ok as H. rewrite E in H. discriminate H.
  - exists out, ns, g, st'. split; [reflexivity |].
    apply (call_cell_state_clipped clip5_cell unit_input (zeros 1 1, zeros 1 1) None
             root_scope ∅ st' out ns g 5); [reflexivity | lra | exact E].
Defined.

Lemma negative_clip_call_ok :
  is_ok (__call__ negative_clip_cell unit_input (zeros 1 1, zeros 1 1) None
           root_scope ∅).1 = true.
Proof. vm_compute. reflexivity. Qed.

(** C4, as stated, fails for a negative bound: with [cell_clip = -1] the
    step succeeds and returns the cell state [[1]], which is not in the
    (empty) interval [[-(-1), -1]]. *)
Lemma call_negative_clip_out_of_bounds :
  ∃ out ns g st',
    __call__ negative_clip_cell unit_input (zeros 1 1, zeros 1 1) None root_scope ∅
      = (inr (out, ns, g), st') ∧
    _cell_clip negative_clip_cell = Some (-1)%R ∧
    rows (c ns) = [[1%R]] ∧
    ¬ all_within (- (-1)) (-1) (c ns).
Proof.
  destruct (__call__ negative_clip_cell unit_input (zeros 1 1, zeros 1 1) None
              root_scope ∅) as [[e | [[out ns] g]] st'] eqn:E.
  - pose proof negative_clip_call_ok as H. rewrite E in H. discriminate H.
  - exists out, ns, g, st'. split; [reflexivity |]. split; [reflexivity |].
    apply call_plain_inv in E
      as (dims & n & W & B & ci & xw & L & peep & m0 & _ & _ & _ & _ & _ & _ & _
          & _ & _ & _ & Hcs & _); [| reflexivity..].
    assert (rows (c ns) = [[1%R]]) as Hrows.
    { rewrite Hcs. unfold tabulate. simpl. unfold clip_scalar. simpl.
      rewrite clip_negative by lra. do 2 f_equal. lra. }
    split; [exact Hrows |].
    unfold all_within. rewrite Hrows. intros H.
    inversion H as [| ? ? Hrow _]. inversion Hrow as [| ? ? Hv _]. lra.
Qed.

(** ** Widths *)

(** C7.  For a previous cell state of width [num_units], a successful
    step returns, with [num_proj = p] set, an output of width [p] and a
    state [(c, h)] of widths [(num_units, p)]; with [num_proj] unset, the
    output and both state components have width [num_units]. *)
Theorem call_output_widths
    (self : LSTMCell) (inputs : Tensor) (c_prev m_prev : matrix)
    (scope : option string) (s : VariableScope) (st st' : gmap string variable)
    (out : matrix) (ns : LSTMStateTuple) (g : option gates) :
  ncols c_prev = _num_units self →
  __call__ self inputs (c_prev, m_prev) scope s st = (inr (out, ns, g), st') →
  match _num_proj self with
  | Some p =>
      has_width out p ∧ has_width (c ns) (_num_units self) ∧ has_width (h ns) p
  | None =>
      has_width out (_num_units self) ∧ has_width (c ns) (_num_units self) ∧
      has_width (h ns) (_num_units self)
  end.
Proof.
  intros Hc E. pose proof (call_widths _ _ _ _ _ _ _ _ _ _ _ Hc E) as H.
  unfold num_proj_of in H. by destruct (_num_proj self).
Qed.

Lemma projected_call_ok :
  is_ok (__call__ projected_cell unit_input (zeros 1 1, zeros 1 3) None
           root_scope ∅).1 = true.
Proof. vm_compute. reflexivity. Qed.

Lemma call_output_widths_witness :
  ∃ out ns g st',
    __call__ projected_cell unit_input (zeros 1 1, zeros 1 3) None root_scope ∅
      = (inr (out, ns, g), st') ∧
    has_width out 3 ∧ has_width (c ns) 1 ∧ has_width (h ns) 3.
Proof.
  destruct (__call__ projected_cell unit_input (zeros 1 1, zeros 1 3) None root_scope ∅)
    as [[e | [[out ns] g]] st'] eqn:E.
  - pose proof projected_call_ok as H. rewrite E in H. discriminate H.
  - exists out, ns, g, st'. split; [reflexivity |].
    apply (call_output_widths projected_cell unit_input (zeros 1 1) (zeros 1 3) None
             root_scope ∅ st' out ns g); [reflexivity | exact E].
Defined.

(** ** Batch normalisation inside the cell *)

Lemma cell_output_bn_inv self peep o c scope_name s st m0 :
  _bn self = true →
  reads (cell_output self peep o c scope_name) s st m0 →
  ∃ og normed,
    output_gate peep o c = inr og ∧
    reads (batch_norm c (_deterministic self) (9 / 10) true (scope_name ++ "bn_m"))
      s st normed ∧
    tf.mul og (tf.tmap (_activation self) normed) = inr m0.
Proof.
  intros Hbn. unfold cell_output. rewrite Hbn. intros E.
  apply reads_bind_inv in E as (og & Hog & E); [| solve_stable | intros; solve_stable].
  apply reads_lift_inv in Hog.
  apply reads_bind_inv in E as (normed & Hn & E); [| solve_stable | intros; solve_stable].
  apply reads_lift_inv in E. by exists og, normed.
Qed.




(** ** The step at zero *)

Lemma reads_get_variable_holds name n init tr s st v :
  reads (vs.get_variable name n init tr) s st v →
  holds st (vs.scoped (vs_name s) name) (Float1 v).
Proof. intros E. by apply get_variable_value in E as [_ ?]. Qed.

Lemma reads_get_variable2_holds name r c init tr s st m :
  reads (vs.get_variable2 name r c init tr) s st m →
  holds st (vs.scoped (vs_name s) name) (Float2 m).
Proof.
  unfold reads, vs.get_variable2, holds.
  destruct (st !! vs.scoped (vs_name s) name) as [[t [v | m0 | z]] |] eqn:El; try done.
  - destruct (_ && _); [| done]. intros [= <-]. by exists t.
  - intros [= <- Hst]. rewrite <- Hst, lookup_insert_eq in El. done.
Qed.

Lemma reads_concat_single_holds name r c s st W :
  reads (_get_concat_variable name r c 1) s st W →
  holds st (vs.scoped (vs_name s) (name ++ "_" ++ pretty 0%nat)) (Float2 W).
Proof.
  unfold _get_concat_variable. intros E.
  apply reads_bind_inv in E as (shards & Hs & E);
    [| apply stable_get_sharded_variable
     | intros [| ? [| ? ?]]; first [apply stable_lift | apply stable_ret]].
  unfold _get_sharded_variable in Hs.
  destruct (r <? 1)%nat; [done |]. simpl in Hs.
  apply reads_bind_inv in Hs as (m & Hm & Hs); [| solve_stable | intros; solve_stable].
  apply reads_bind_inv in Hs as (ms & Hms & Hs); [| solve_stable | intros; solve_stable].
  apply reads_ret_inv in Hms as <-. apply reads_ret_inv in Hs as <-.
  apply reads_ret_inv in E as <-.
  by apply reads_get_variable2_holds in Hm.
Qed.

(** C8 (as the code has it).  Without peepholes and batch normalisation,
    with an activation that maps 0 to 0 (such as the default [tanh]), with
    [cell_clip] unset or non-negative, for a zero previous cell state and
    stored [W] and [B] that are zero: a successful step has zero gate
    pre-activations, the effective forget gate [sigmoid(forget_bias)], a
    zero new cell state and a zero output. *)
Theorem call_zero_step
    (self : LSTMCell) (inputs : Tensor) (m_prev : matrix)
    (scope : option string) (s : VariableScope) (st st' : gmap string variable)
    (out : matrix) (ns : LSTMStateTuple) (g : option gates) :
  _bn self = false →
  _use_peepholes self = false →
  _activation self 0%R = 0%R →
  match _cell_clip self with Some K => (0 <= K)%R | None => True end →
  weights_read_zero self scope s st' →
  __call__ self inputs (zeros (nrows (value inputs)) (_num_units self), m_prev) scope s st
    = (inr (out, ns, g), st') →
  zero_step_result self inputs m_prev scope s st' out ns g.
Proof.
  intros Hbn Hpeep Hact Hclip Hz E.
  apply call_zero_weights in E
    as (W & B & ci & xw & L & m0 & Hci & Hxw & HL & Hs & Hgz & Hg & Hc & Hm & Hpr & Hh);
    [| done..].
  rewrite Hact, Rmult_0_r, clip_scalar_0 in Hc by done.
  fold (zeros (nrows (value inputs)) (_num_units self)) in Hc.
  assert (m0 = zeros (nrows (value inputs)) (_num_units self)) as ->.
  { rewrite Hc in Hm. unfold zeros, tf.mul in Hm. rewrite !tmap_tabulate in Hm.
    rewrite binop_same in Hm by (by rewrite ?length_tabulate_rows).
    injection Hm as <-. rewrite ?length_tabulate_rows, ?ncols_tabulate.
    apply tabulate_ext. intros r k Hr Hk. rewrite !entry_tabulate by done.
    rewrite Hact. lra. }
  assert (out = zeros (nrows (value inputs)) (num_proj_of self)) as Hout.
  { unfold project, num_proj_of in *. destruct (_num_proj self) as [p |].
    - apply reads_bind_inv in Hpr as (WP & HWP & Hpr);
        [| solve_stable | intros; solve_stable].
      apply reads_lift_inv in Hpr. apply get_concat_variable_ncols in HWP.
      apply matmul_inv in Hpr as [_ ->]. rewrite HWP.
      unfold zeros at 1. rewrite length_tabulate_rows. apply tabulate_ext.
      intros r k _ _. apply Rsum_zero. intros q _. rewrite entry_zeros. lra.
    - by apply reads_ret_inv in Hpr as <-. }
  rewrite Hgz in Hs, Hg.
  exists W, B, ci, xw, L.
  exists (zeros (nrows (value inputs)) (_num_units self)),
         (zeros (nrows (value inputs)) (_num_units self)),
         (zeros (nrows (value inputs)) (_num_units self)),
         (zeros (nrows (value inputs)) (_num_units self)).
  repeat split; try done.
  unfold tf.add_scalar, zeros. rewrite !tmap_tabulate. apply tabulate_ext.
  intros r k _ _. f_equal. lra.
Qed.

(** A fresh one-unit cell under the root scope reads zero weights. *)
Ltac fresh_unit_weights_zero E :=
  match type of E with
  | ?call = (_, ?st') =>
      assert (st' = call.2) as Hst by (by rewrite E);
      assert (vs.scoped (vs_name (inner_scope unit_cell None root_scope))
                ("W" ++ "_" ++ pretty 0%nat) = "LSTMCell/W_0") as HnW
        by (vm_compute; reflexivity);
      assert (st' !! "LSTMCell/W_0"
              = Some {| trainable := true; contents := Float2 (zeros 2 4) |}) as HlW
        by (rewrite Hst; vm_compute; reflexivity);
      assert (st' !! "LSTMCell/B"
              = Some {| trainable := true; contents := Float1 [0; 0; 0; 0]%R |}) as HlB
        by (rewrite Hst; vm_compute; reflexivity);
      split;
      [ intros input_size W HW p q;
        apply reads_concat_single_holds in HW as [t HW];
        change (vs.scoped _ _) with
          (vs.scoped (vs_name (inner_scope unit_cell None root_scope))
             ("W" ++ "_" ++ pretty 0%nat)) in HW;
        rewrite HnW, HlW in HW; injection HW as _ <-; apply entry_zeros
      | intros B HB k;
        apply reads_get_variable_holds in HB as [t HB];
        change (vs.scoped _ _) with "LSTMCell/B" in HB;
        rewrite HlB in HB; injection HB as _ <-;
        do 4 (destruct k as [| k]; [done |]); simpl; by destruct k ]
  end.

Lemma call_zero_step_witness :
  ∃ out ns g st',
    __call__ unit_cell unit_input (zeros 1 1, zeros 1 1) None root_scope ∅
      = (inr (out, ns, g), st') ∧
    zero_step_result unit_cell unit_input (zeros 1 1) None root_scope st' out ns g.
Proof.
  destruct (__call__ unit_cell unit_input (zeros 1 1, zeros 1 1) None root_scope ∅)
    as [[e | [[out ns] g]] st'] eqn:E.
  - pose proof unit_call_ok as H. rewrite E in H. discriminate H.
  - exists out, ns, g, st'. split; [reflexivity |].
    apply (call_zero_step unit_cell unit_input (zeros 1 1) None root_scope ∅ st' out ns g);
      [reflexivity | reflexivity | exact tanh_zero | exact I | | exact E].
    fresh_unit_weights_zero E.
Defined.

Lemma sigmoid_call_ok :
  is_ok (__call__ sigmoid_cell unit_input (zeros 1 1, zeros 1 1) None root_scope ∅).1
  = true.
Proof. vm_compute. reflexivity. Qed.

(** C8, as stated, fails for an activation that does not vanish at 0:
    with the sigmoid as activation, zero input, zero previous state and
    zero-initialised [W] and [B], the new cell state is
    [sigmoid(0) * sigmoid(0) = 1/4]. *)
Lemma call_zero_step_sigmoid_activation :
  ∃ out ns g st',
    __call__ sigmoid_cell unit_input (zeros 1 1, zeros 1 1) None root_scope ∅
      = (inr (out, ns, g), st') ∧
    _use_peepholes sigmoid_cell = false ∧ _bn sigmoid_cell = false ∧
    weights_read_zero sigmoid_cell None root_scope st' ∧
    rows (c ns) = [[(1 / 4)%R]] ∧
    c ns ≠ zeros 1 1.
Proof.
  destruct (__call__ sigmoid_cell unit_input (zeros 1 1, zeros 1 1) None root_scope ∅)
    as [[e | [[out ns] g]] st'] eqn:E.
  - pose proof sigmoid_call_ok as H. rewrite E in H. discriminate H.
  - exists out, ns, g, st'. split; [reflexivity |].
    split; [reflexivity |]. split; [reflexivity |].
    assert (weights_read_zero sigmoid_cell None root_scope st') as Hz
      by (fresh_unit_weights_zero E).
    split; [exact Hz |].
    apply (call_zero_weights sigmoid_cell unit_input (zeros 1 1) None root_scope ∅)
      in E as (W & B & ci & xw & L & m0 & _ & _ & _ & _ & _ & _ & Hc & _);
      [| reflexivity | reflexivity | exact Hz].
    assert (rows (c ns) = [[(1 / 4)%R]]) as Hrows.
    { rewrite Hc. unfold tabulate, clip_scalar. simpl. rewrite sigmoid_0.
      do 2 f_equal. lra. }
    split; [exact Hrows |]. intros Heq. rewrite Heq in Hrows.
    unfold zeros, tabulate in Hrows. simpl in Hrows. injection Hrows as Hrows. lra.
Qed.

(** * Further properties of the code *)

(** ** Declared and actual sizes *)

(** For a cell built by [__init__] with [num_proj] unset or non-zero, what
    a successful step returns has the declared [output_size] and
    [state_size]. *)
Theorem call_matches_declared_sizes
    (num_units : nat) (use_peepholes : bool) (cell_clip : option R)
    (initializer : option Initializer) (num_proj : option nat)
    (num_unit_shards num_proj_shards : nat) (forget_bias : R)
    (bn return_gate : bool) (deterministic : option bool) (activation : R → R)
    (inputs : Tensor) (c_prev m_prev : matrix)
    (scope : option string) (s : VariableScope) (st st' : gmap string variable)
    (out : matrix) (ns : LSTMStateTuple) (g : option gates) :
  let self := __init__ num_units use_peepholes cell_clip initializer num_proj
                num_unit_shards num_proj_shards forget_bias bn return_gate
                deterministic activation in
  num_proj ≠ Some 0%nat →
  ncols c_prev = num_units →
  __call__ self inputs (c_prev, m_prev) scope s st = (inr (out, ns, g), st') →
  has_width out (output_size self) ∧
  has_width (c ns) (state_size self).1 ∧
  has_width (h ns) (state_size self).2.
Proof.
  intros self Hp Hc E.
  destruct (call_widths self inputs c_prev m_prev scope s st out ns g st' Hc E)
    as (Ho & Hcn & Hh).
  unfold output_size, state_size, num_proj_of in *. subst self. simpl in *.
  destruct num_proj as [[| p] |]; simpl; done.
Qed.

Lemma call_matches_declared_sizes_witness :
  ∃ out ns g st',
    __call__ projected_cell unit_input (zeros 1 1, zeros 1 3) None root_scope ∅
      = (inr (out, ns, g), st') ∧
    has_width out (output_size projected_cell) ∧
    has_width (c ns) (state_size projected_cell).1 ∧
    has_width (h ns) (state_size projected_cell).2.
Proof.
  destruct (__call__ projected_cell unit_input (zeros 1 1, zeros 1 3) None root_scope ∅)
    as [[e | [[out ns] g]] st'] eqn:E.
  - pose proof projected_call_ok as H. rewrite E in H. discriminate H.
  - exists out, ns, g, st'. split; [reflexivity |].
    apply (call_matches_declared_sizes 1 false None None (Some 3%nat) 1 1 1 false false
             None tanh unit_input (zeros 1 1) (zeros 1 3) None root_scope ∅ st' out ns g);
      [discriminate | reflexivity | exact E].
Defined.

(** With [num_proj = 0] the constructor takes the value for unset
    ([if num_proj:]) and declares [output_size = num_units], while
    [__call__] takes it for set ([is not None]): a successful step returns
    an output and an [h] of width 0. *)
Theorem call_zero_projection_width
    (num_units : nat) (use_peepholes : bool) (cell_clip : option R)
    (initializer : option Initializer)
    (num_unit_shards num_proj_shards : nat) (forget_bias : R)
    (bn return_gate : bool) (deterministic : option bool) (activation : R → R)
    (inputs : Tensor) (c_prev m_prev : matrix)
    (scope : option string) (s : VariableScope) (st st' : gmap string variable)
    (out : matrix) (ns : LSTMStateTuple) (g : option gates) :
  let self := __init__ num_units use_peepholes cell_clip initializer (Some 0%nat)
                num_unit_shards num_proj_shards forget_bias bn return_gate
                deterministic activation in
  ncols c_prev = num_units →
  __call__ self inputs (c_prev, m_prev) scope s st = (inr (out, ns, g), st') →
  output_size self = num_units ∧ state_size self = (num_units, num_units) ∧
  has_width out 0 ∧ has_width (h ns) 0.
Proof.
  intros self Hc E.
  destruct (call_widths self inputs c_prev m_prev scope s st out ns g st' Hc E)
    as (Ho & _ & Hh).
  done.
Qed.

Lemma zero_proj_call_ok :
  is_ok (__call__ zero_proj_cell unit_input (zeros 1 1, zeros 1 0) None
           root_scope ∅).1 = true.
Proof. vm_compute. reflexivity. Qed.

Lemma call_zero_projection_width_witness :
  ∃ out ns g st',
    __call__ zero_proj_cell unit_input (zeros 1 1, zeros 1 0) None root_scope ∅
      = (inr (out, ns, g), st') ∧
    output_size zero_proj_cell = 1%nat ∧ state_size zero_proj_cell = (1%nat, 1%nat) ∧
    has_width out 0 ∧ has_width (h ns) 0.
Proof.
  destruct (__call__ zero_proj_cell unit_input (zeros 1 1, zeros 1 0) None root_scope ∅)
    as [[e | [[out ns] g]] st'] eqn:E.
  - pose proof zero_proj_call_ok as H. rewrite E in H. discriminate H.
  - exists out, ns, g, st'. split; [reflexivity |].
    apply (call_zero_projection_width 1 false None None 1 1 1 false false None tanh
             unit_input (zeros 1 1) (zeros 1 0) None root_scope ∅ st' out ns g);
      [reflexivity | exact E].
Defined.

(** ** The variable store under [batch_norm] and [__call__] *)

Lemma batch_norm_none_fails x alpha shift scope s st normed st' :
  batch_norm x None alpha shift scope s st = (inr normed, st') → False.
Proof.
  unfold batch_norm, vs.variable_scope. intros E.
  do 6 (apply bind_run_inv in E as (? & ? & _ & E)).
  destruct (tf.moments x) as [bm bv].
  apply bind_run_inv in E as ([m1 v1] & ? & _ & E).
  apply bind_run_inv in E as (? & ? & E & _). by unfold cond, raise in E.
Qed.

Lemma stored_int64_holds st name z init : holds st name (Int64 z) → stored_int64 st name init = z.
Proof. intros [t H]. unfold stored_int64. by rewrite H. Qed.

(** [batch_norm] never changes a stored variable, in training mode or in
    evaluation mode, whether it succeeds or fails; and after a successful
    call the counter and the sentinel read exactly as before (the counter
    is never incremented). *)
Theorem batch_norm_keeps_store
    (x : matrix) (det : option bool) (alpha : R) (shift : bool) (scope : string)
    (s : VariableScope) (st : gmap string variable) :
  let r := batch_norm x det alpha shift scope s st in
  st ⊆ r.2 ∧
  (is_ok r.1 = true →
     counter_value r.2 s scope = counter_value st s scope ∧
     zero_cnt_value r.2 s scope = zero_cnt_value st s scope).
Proof.
  cbv zeta. destruct (batch_norm x det alpha shift scope s st) as [r st'] eqn:E. simpl.
  split; [by destruct (stable_batch_norm _ _ _ _ _ _ _ _ _ E) |].
  destruct r as [e | normed]; [done |]. intros _.
  destruct det as [det |]; [| by apply batch_norm_none_fails in E].
  apply batch_norm_inv in E
    as (beta & gamma & mean & var & stats & _ & _ & _ & _ & Hc & Hz & _).
  unfold counter_value at 1, zero_cnt_value at 1.
  by rewrite (stored_int64_holds _ _ _ _ Hc), (stored_int64_holds _ _ _ _ Hz).
Qed.

(** [__call__] never changes a stored variable, whether it succeeds or
    fails: every variable present before the step has the same value
    after it. *)
Theorem call_keeps_store
    (self : LSTMCell) (inputs : Tensor) (state : matrix * matrix)
    (scope : option string) (s : VariableScope) (st : gmap string variable) :
  st ⊆ (__call__ self inputs state scope s st).2.
Proof.
  destruct (__call__ self inputs state scope s st) as [r st'] eqn:E. simpl.
  by destruct (stable_call _ _ _ _ _ _ _ _ E).
Qed.


(** A cell with batch normalisation and no [deterministic] tensor (the
    constructor's default [None]) cannot complete a step. *)
Theorem call_bn_without_deterministic_fails
    (self : LSTMCell) (inputs : Tensor) (state : matrix * matrix)
    (scope : option string) (s : VariableScope) (st : gmap string variable) :
  _bn self = true →
  _deterministic self = None →
  is_ok (__call__ self inputs state scope s st).1 = false.
Proof.
  intros Hbn Hdet. destruct state as [c_prev m_prev].
  destruct (__call__ self inputs (c_prev, m_prev) scope s st)
    as [[e | [[out ns] g]] st'] eqn:E; [done |]. exfalso.
  apply call_inv in E as (dims & n & [[[i j] f] o] & _ & _ & E & _).
  apply step_inv in E as (L & peep & c0 & m0 & _ & _ & _ & _ & _ & Ho & _).
  apply cell_output_bn_inv in Ho as (og & normed & _ & Hn & _); [| done].
  rewrite Hdet in Hn. by apply batch_norm_none_fails in Hn.
Qed.

Lemma call_bn_without_deterministic_fails_witness :
  is_ok (__call__ bn_default_cell unit_input (zeros 1 1, zeros 1 1) None root_scope ∅).1
  = false.
Proof.
  apply (call_bn_without_deterministic_fails bn_default_cell unit_input
           (zeros 1 1, zeros 1 1) None root_scope ∅); reflexivity.
Defined.

(** ** [batch_norm], entry by entry *)

Lemma broadcast_dim_1_r n : tf.broadcast_dim n 1 = Some n.
Proof.
  unfold tf.broadcast_dim. destruct (Nat.eqb_spec n 1) as [-> | Hn]; [done |].
  by rewrite Nat.eqb_refl.
Qed.

(** A one-row right operand of matching width is broadcast along the rows. *)
Lemma binop_row_r name f a b :
  nrows b = 1%nat → ncols b = ncols a →
  tf.binop name f a b =
    inr (tabulate (nrows a) (ncols a) (λ i k, f (entry a i k) (entry b 0 k))).
Proof.
  intros Hr Hc. unfold tf.binop. rewrite Hr, Hc, broadcast_dim_1_r, broadcast_dim_same.
  f_equal. apply tabulate_ext. intros i k Hi Hk.
  rewrite (bidx_lt (nrows a)), !(bidx_lt (ncols a)) by done. done.
Qed.

Lemma nth_map_seq (f : nat → R) n k : (k < n)%nat → nth k (map f (seq 0 n)) 0%R = f k.
Proof.
  intros Hk. rewrite (nth_indep _ 0%R (f 0%nat)) by (by rewrite length_map, length_seq).
  rewrite (map_nth f (seq 0 n) 0%nat k). by rewrite seq_nth.
Qed.

(** On statistics and parameters of the input's width,
    [batch_normalization] succeeds, keeps the shape of the input, and its
    entries are [(x - mean) / sqrt(var + eps) * gamma + beta]. *)
Lemma batch_normalization_ok x mean var beta gamma :
  length mean = ncols x → length var = ncols x →
  length beta = ncols x → length gamma = ncols x →
  tf.batch_normalization x mean var beta gamma (1 / 100000000) =
    inr (tabulate (nrows x) (ncols x) (normalised_entry x mean var beta gamma)).
Proof.
  intros Hm Hv Hb Hg.
  set (inv := λ k, (tf.rsqrt (nth k var 0 + 1 / 100000000) * nth k gamma 0)%R).
  set (INV := tabulate 1 (ncols x) (λ _ k, inv k)).
  set (XI := tabulate (nrows x) (ncols x) (λ r k, (entry x r k * inv k)%R)).
  set (MI := tabulate 1 (ncols x) (λ _ k, (nth k mean 0 * inv k)%R)).
  set (SH := tabulate 1 (ncols x) (λ _ k, (nth k beta 0 - nth k mean 0 * inv k)%R)).
  assert (tf.binop "Mul" Rmult
            (tf.tmap tf.rsqrt (tf.add_scalar (of_vector var) (1 / 100000000)))
            (of_vector gamma) = inr INV) as H1.
  { rewrite binop_same; [| reflexivity | simpl; congruence].
    rewrite nrows_tmap. simpl ncols. change (nrows _) with 1%nat. rewrite Hv.
    f_equal. apply tabulate_ext. intros i k Hi Hk. assert (i = 0%nat) as -> by lia.
    unfold tf.add_scalar. rewrite entry_tmap; [| done | simpl; rewrite length_map; lia].
    rewrite entry_tmap; [| done | simpl; lia]. by rewrite !entry_of_vector. }
  assert (tf.binop "Mul" Rmult x INV = inr XI) as H2.
  { rewrite binop_row_r by done. f_equal. apply tabulate_ext. intros r k Hr Hk.
    unfold INV. by rewrite entry_tabulate by (done || lia). }
  assert (tf.binop "Mul" Rmult (of_vector mean) INV = inr MI) as H3.
  { rewrite binop_same; [| reflexivity | simpl; congruence].
    change (nrows (of_vector mean)) with 1%nat. simpl ncols. rewrite Hm.
    f_equal. apply tabulate_ext. intros i k Hi Hk. assert (i = 0%nat) as -> by lia.
    unfold INV. by rewrite entry_tabulate, entry_of_vector by (done || lia). }
  assert (tf.binop "Sub" Rminus (of_vector beta) MI = inr SH) as H4.
  { rewrite binop_same; [| reflexivity | simpl; congruence].
    change (nrows (of_vector beta)) with 1%nat. simpl ncols. rewrite Hb.
    f_equal. apply tabulate_ext. intros i k Hi Hk. assert (i = 0%nat) as -> by lia.
    unfold MI. by rewrite entry_tabulate, entry_of_vector by (done || lia). }
  assert (tf.binop "Add" Rplus XI SH
          = inr (tabulate (nrows x) (ncols x) (normalised_entry x mean var beta gamma)))
    as H5.
  { rewrite binop_row_r by done. unfold XI at 1 2.
    rewrite length_tabulate_rows, ncols_tabulate. f_equal.
    apply tabulate_ext. intros r k Hr Hk. unfold XI, SH.
    rewrite !entry_tabulate by (done || lia).
    unfold normalised_entry, inv, tf.rsqrt, Rdiv. ring. }
  unfold tf.batch_normalization, tf.mul, tf.sub, tf.add.
  rewrite H1. cbn [res_bind]. rewrite H2. cbn [res_bind]. rewrite H3. cbn [res_bind].
  rewrite H4. cbn [res_bind]. exact H5.
Qed.

(** A successful [batch_norm] has a [deterministic] tensor, returns a
    tensor of the shape of its input, and its entry [(r, k)] is
    [(x[r][k] - mean[k]) / sqrt(var[k] + 1e-8) * gamma[k] + beta[k]] for
    the stored [beta], [gamma] and the statistics selected by the counter
    and the flag. *)
Theorem batch_norm_entries
    (x : matrix) (det : option bool) (alpha : R) (shift : bool) (scope : string)
    (s : VariableScope) (st st' : gmap string variable) (normed : matrix) :
  batch_norm x det alpha shift scope s st = (inr normed, st') →
  ∃ d beta gamma mean var stats,
    det = Some d ∧
    holds st' (bn_name s scope "_beta") (Float1 beta) ∧
    holds st' (bn_name s scope "_gamma") (Float1 gamma) ∧
    holds st' (bn_name s scope "_mean") (Float1 mean) ∧
    holds st' (bn_name s scope "_var") (Float1 var) ∧
    used_statistics x d alpha mean var (counter_value st s scope)
      (zero_cnt_value st s scope) = inr stats ∧
    normed = tabulate (nrows x) (ncols x) (normalised_entry x stats.1 stats.2 beta gamma) ∧
    has_shape normed (nrows x) (ncols x).
Proof.
  intros E. destruct det as [d |]; [| by apply batch_norm_none_fails in E].
  apply batch_norm_inv in E
    as (beta & gamma & mean & var & stats & Hb & Hg & Hm & Hv & _ & _ & Hs & Hn
        & Lb & Lg & Lm & Lv).
  destruct (used_statistics_length _ _ _ _ _ _ _ _ Lm Lv Hs) as [L1 L2].
  rewrite (batch_normalization_ok x stats.1 stats.2 beta gamma L1 L2 Lb Lg) in Hn.
  injection Hn as <-.
  exists d, beta, gamma, mean, var, stats. repeat split; try done.
  - by rewrite length_tabulate_rows.
  - apply wf_tabulate.
Qed.

Lemma two_rows_eval_ok :
  is_ok (batch_norm two_rows (Some true) (9 / 10) true "bn" root_scope ∅).1 = true.
Proof. vm_compute. reflexivity. Qed.

Lemma batch_norm_entries_witness :
  ∃ normed st',
    batch_norm two_rows (Some true) (9 / 10) true "bn" root_scope ∅ = (inr normed, st') ∧
    has_shape normed 2 1.
Proof.
  destruct (batch_norm two_rows (Some true) (9 / 10) true "bn" root_scope ∅)
    as [[e | normed] st'] eqn:E.
  - pose proof two_rows_eval_ok as H. rewrite E in H. discriminate H.
  - exists normed, st'. split; [reflexivity |].
    destruct (batch_norm_entries two_rows (Some true) (9 / 10) true "bn" root_scope ∅ st'
                normed E) as (d & beta & gamma & mean & var & stats & _ & _ & _ & _ & _
                              & _ & _ & Hshape).
    exact Hshape.
Defined.

(** On a later call (the stored counter differs from the sentinel) in
    evaluation mode, the batch statistics play no part: the tensor is
    normalised with the stored running mean and variance. *)
Theorem batch_norm_eval_uses_stored_statistics
    (x : matrix) (alpha : R) (shift : bool) (scope : string)
    (s : VariableScope) (st st' : gmap string variable) (normed : matrix) :
  counter_value st s scope ≠ zero_cnt_value st s scope →
  batch_norm x (Some true) alpha shift scope s st = (inr normed, st') →
  ∃ beta gamma mean var,
    holds st' (bn_name s scope "_beta") (Float1 beta) ∧
    holds st' (bn_name s scope "_gamma") (Float1 gamma) ∧
    holds st' (bn_name s scope "_mean") (Float1 mean) ∧
    holds st' (bn_name s scope "_var") (Float1 var) ∧
    normed = tabulate (nrows x) (ncols x) (normalised_entry x mean var beta gamma).
Proof.
  intros Hne E.
  apply batch_norm_inv in E
    as (beta & gamma & mean & var & stats & Hb & Hg & Hm & Hv & _ & _ & Hs & Hn
        & Lb & Lg & Lm & Lv).
  unfold used_statistics in Hs. destruct (tf.moments x) as [bm bv].
  apply Z.eqb_neq in Hne. rewrite Hne in Hs. injection Hs as <-. simpl in Hn.
  rewrite (batch_normalization_ok x mean var beta gamma Lm Lv Lb Lg) in Hn.
  injection Hn as <-. by exists beta, gamma, mean, var.
Qed.

Lemma counted_eval_ok :
  is_ok (batch_norm two_rows (Some true) (9 / 10) true "bn" root_scope counted_store).1
  = true.
Proof. vm_compute. reflexivity. Qed.

Lemma batch_norm_eval_uses_stored_statistics_witness :
  ∃ normed st' beta gamma mean var,
    batch_norm two_rows (Some true) (9 / 10) true "bn" root_scope counted_store
      = (inr normed, st') ∧
    holds st' (bn_name root_scope "bn" "_mean") (Float1 mean) ∧
    holds st' (bn_name root_scope "bn" "_var") (Float1 var) ∧
    normed = tabulate 2 1 (normalised_entry two_rows mean var beta gamma).
Proof.
  destruct (batch_norm two_rows (Some true) (9 / 10) true "bn" root_scope counted_store)
    as [[e | normed] st'] eqn:E.
  - pose proof counted_eval_ok as H. rewrite E in H. discriminate H.
  - destruct (batch_norm_eval_uses_stored_statistics two_rows (9 / 10) true "bn"
                root_scope counted_store st' normed)
      as (beta & gamma & mean & var & _ & _ & Hm & Hv & Hn);
      [vm_compute; discriminate | exact E |].
    exists normed, st', beta, gamma, mean, var. repeat split; done.
Defined.

(** ** [batch_norm] on a fresh store *)

Lemma bind_ok {A B} (m : M A) (f : A → M B) s st a st1 :
  m s st = (inr a, st1) → (m ≫= f) s st = f a s st1.
Proof.
  intros E. change ((m ≫= f) s st) with (bind m f s st). unfold bind. by rewrite E.
Qed.

Lemma get_variable_fresh name n init tr s st :
  st !! vs.scoped (vs_name s) name = None →
  vs.get_variable name n init tr s st =
    (inr (map (default (vs_initializer s) init (vs.scoped (vs_name s) name) [n] 0%nat)
            (seq 0 n)),
     <[vs.scoped (vs_name s) name :=
         {| trainable := tr;
            contents := Float1 (map (default (vs_initializer s) init
                                       (vs.scoped (vs_name s) name) [n] 0%nat)
                                  (seq 0 n)) |}]> st).
Proof. intros H. unfold vs.get_variable. by rewrite H. Qed.

Lemma get_variable_int64_fresh name z0 tr s st :
  st !! vs.scoped (vs_name s) name = None →
  vs.get_variable_int64 name z0 tr s st =
    (inr z0, <[vs.scoped (vs_name s) name := {| trainable := tr; contents := Int64 z0 |}]> st).
Proof. intros H. unfold vs.get_variable_int64. by rewrite H. Qed.

Lemma cond_ok {A} p (a b : A) s st :
  cond (Some p) (inr a) (inr b) s st = (inr (if p then a else b), st).
Proof. reflexivity. Qed.

Ltac bn_lookup_fresh H :=
  rewrite ?lookup_insert_ne by (apply bn_name_ne; discriminate); apply H.

(** The first call at a call site (none of its variables exists) always
    succeeds, in training and in evaluation mode, for every input: it
    returns a tensor of the input's shape with entries
    [(x[r][k] - batch_mean[k]) / sqrt(batch_var[k] + 1e-8) * 0.1]
    (beta is created as 0 and gamma as 0.1). *)
Theorem batch_norm_first_call_succeeds
    (x : matrix) (det : bool) (alpha : R) (shift : bool) (scope : string)
    (s : VariableScope) (st : gmap string variable) :
  bn_fresh st s scope →
  (batch_norm x (Some det) alpha shift scope s st).1 =
    inr (tabulate (nrows x) (ncols x) (λ r k,
           ((entry x r k - nth k (tf.moments x).1 0)
            / sqrt (nth k (tf.moments x).2 0 + 1 / 100000000) * (1 / 10))%R)).
Proof.
  intros Hfresh. unfold batch_norm, vs.variable_scope.
  set (s' := {| vs_name := vs.scoped (vs_name s) scope;
                vs_initializer := default (vs_initializer s) None |}).
  assert (∀ suffix, vs.scoped (vs_name s') (scope ++ suffix) = bn_name s scope suffix)
    as Hname by done.
  assert ((if shift
           then vs.get_variable (scope ++ "_beta") (ncols x) (Some zeros_initializer) true
           else vs.get_variable (scope ++ "_beta") (ncols x) (Some zeros_initializer) false)
          = vs.get_variable (scope ++ "_beta") (ncols x) (Some zeros_initializer) shift)
    as -> by (by destruct shift).
  erewrite bind_ok; [| apply get_variable_fresh; rewrite !Hname; bn_lookup_fresh Hfresh].
  erewrite bind_ok; [| apply get_variable_fresh; rewrite !Hname; bn_lookup_fresh Hfresh].
  erewrite bind_ok; [| apply get_variable_fresh; rewrite !Hname; bn_lookup_fresh Hfresh].
  erewrite bind_ok; [| apply get_variable_fresh; rewrite !Hname; bn_lookup_fresh Hfresh].
  erewrite bind_ok;
    [| apply get_variable_int64_fresh; rewrite !Hname; bn_lookup_fresh Hfresh].
  erewrite bind_ok;
    [| apply get_variable_int64_fresh; rewrite !Hname; bn_lookup_fresh Hfresh].
  destruct (tf.moments x) as [bm bv] eqn:Emo.
  assert (length bm = ncols x ∧ length bv = ncols x) as [Lm Lv].
  { unfold tf.moments in Emo. injection Emo as <- <-.
    by rewrite !length_map, !length_seq. }
  erewrite bind_ok; [| apply cond_ok]. rewrite Z.eqb_refl. cbv beta iota.
  rewrite !blend_same. cbn [res_bind].
  erewrite bind_ok; [| apply cond_ok].
  destruct det; cbv beta iota.
  all: rewrite batch_normalization_ok by (done || by rewrite length_map, length_seq).
  all: simpl; f_equal; apply tabulate_ext; intros r k Hr Hk.
  all: unfold normalised_entry; rewrite !nth_map_seq by done.
  all: unfold zeros_initializer, constant_initializer; simpl; lra.
Qed.

Lemma batch_norm_first_call_succeeds_witness :
  (batch_norm two_rows (Some false) (9 / 10) true "bn" root_scope ∅).1 =
    inr (tabulate 2 1 (λ r k,
           ((entry two_rows r k - nth k (tf.moments two_rows).1 0)
            / sqrt (nth k (tf.moments two_rows).2 0 + 1 / 100000000) * (1 / 10))%R)).
Proof.
  apply (batch_norm_first_call_succeeds two_rows false (9 / 10) true "bn" root_scope ∅).
  intros suffix. apply lookup_empty.
Defined.

(** ** Ranges *)

Lemma sigmoid_range x : (0 < tf.sigmoid x < 1)%R.
Proof.
  unfold tf.sigmoid. pose proof (exp_pos (- x)) as He.
  assert ((1 / (1 + exp (- x)))%R = (1 - exp (- x) / (1 + exp (- x)))%R) as ->
    by (field; lra).
  assert (0 < exp (- x) / (1 + exp (- x)))%R by (apply Rdiv_lt_0_compat; lra).
  assert (exp (- x) / (1 + exp (- x)) < 1)%R.
  { apply (Rmult_lt_reg_r (1 + exp (- x))); [lra |].
    unfold Rdiv. rewrite Rmult_assoc, Rinv_l by lra. lra. }
  lra.
Qed.

Lemma tanh_bounded : bounded_activation tanh.
Proof.
  intros x. unfold tanh, sinh, cosh.
  pose proof (exp_pos x) as Ha. pose proof (exp_pos (- x)) as Hb.
  set (a := exp x) in *. set (b := exp (- x)) in *.
  assert (0 < b / (a + b) < 1)%R as Hq.
  { split; [apply Rdiv_lt_0_compat; lra |].
    apply (Rmult_lt_reg_r (a + b)); [lra |].
    unfold Rdiv. rewrite Rmult_assoc, Rinv_l by lra. lra. }
  assert (((a - b) / 2 / ((a + b) / 2))%R = (1 - 2 * (b / (a + b)))%R) as ->
    by (field; lra).
  lra.
Qed.

Lemma entry_tmap_range g m lo hi i k :
  (∀ x, (lo <= g x <= hi)%R) → (lo <= 0 <= hi)%R →
  (lo <= entry (tf.tmap g m) i k <= hi)%R.
Proof.
  intros Hg H0. unfold entry, tf.tmap; simpl.
  destruct (nth_in_or_default i (map (map g) (rows m)) []) as [Hin | ->].
  - apply in_map_iff in Hin as (row & <- & _).
    destruct (nth_in_or_default k (map g row) 0%R) as [Hin | ->]; [| done].
    by apply in_map_iff in Hin as (v & <- & _).
  - by destruct k.
Qed.

Lemma all_within_tabulate lo hi r c f :
  (∀ i k, (lo <= f i k <= hi)%R) → all_within lo hi (tabulate r c f).
Proof.
  intros H. unfold all_within, tabulate; simpl.
  apply List.Forall_map, List.Forall_forall. intros i _.
  apply List.Forall_map, List.Forall_forall. intros k _. apply H.
Qed.

Lemma mul_bounded a b m :
  (∀ i k, (0 <= entry a i k <= 1)%R) → (∀ i k, (-1 <= entry b i k <= 1)%R) →
  tf.mul a b = inr m → all_within (-1) 1 m.
Proof.
  intros Ha Hb (r & c & _ & _ & ->)%binop_inv. apply all_within_tabulate.
  intros i k.
  pose proof (Ha (tf.bidx (nrows a) i) (tf.bidx (ncols a) k)) as H1.
  pose proof (Hb (tf.bidx (nrows b) i) (tf.bidx (ncols b) k)) as H2.
  nra.
Qed.

Lemma output_gate_range peep o c og :
  output_gate peep o c = inr og → ∀ i k, (0 <= entry og i k <= 1)%R.
Proof.
  assert (∀ m i k, (0 <= entry (tf.tmap tf.sigmoid m) i k <= 1)%R) as Hs.
  { intros m i k. apply entry_tmap_range; [| lra].
    intros x. pose proof (sigmoid_range x). lra. }
  unfold output_gate. destruct peep as [[[w_f w_i] w_o] |].
  - intros E. apply res_bind_inv in E as (po & _ & E).
    apply res_bind_inv in E as (zo & _ & E). injection E as <-. apply Hs.
  - intros [= <-]. apply Hs.
Qed.

(** ** The output *)

(** Without projection, for an activation with values in [[-1, 1]] (such
    as the default [tanh]), every entry of the output of a successful
    step lies in [[-1, 1]], in every configuration and for every input
    and state. *)
Theorem call_output_bounded
    (self : LSTMCell) (inputs : Tensor) (state : matrix * matrix)
    (scope : option string) (s : VariableScope) (st st' : gmap string variable)
    (out : matrix) (ns : LSTMStateTuple) (g : option gates) :
  _num_proj self = None →
  bounded_activation (_activation self) →
  __call__ self inputs state scope s st = (inr (out, ns, g), st') →
  all_within (-1) 1 out ∧ all_within (-1) 1 (h ns).
Proof.
  intros Hproj Hact E. destruct state as [c_prev m_prev].
  apply call_inv in E as (dims & n & [[[i j] f] o] & _ & _ & E & Hh & _).
  apply step_inv in E as (L & peep & c0 & m0 & _ & _ & _ & _ & _ & Ho & Hpr).
  unfold project in Hpr. rewrite Hproj in Hpr. apply reads_ret_inv in Hpr as <-.
  rewrite Hh. cut (all_within (-1) 1 m0); [done |].
  assert (∀ m i k, (-1 <= entry (tf.tmap (_activation self) m) i k <= 1)%R) as Ha
    by (intros; apply entry_tmap_range; [apply Hact | lra]).
  unfold cell_output in Ho.
  apply reads_bind_inv in Ho as (og & Hog & Ho); [| solve_stable | intros; solve_stable].
  apply reads_lift_inv in Hog. pose proof (output_gate_range _ _ _ _ Hog) as Hr.
  destruct (_bn self).
  - apply reads_bind_inv in Ho as (normed & _ & Ho);
      [| solve_stable | intros; solve_stable].
    apply reads_lift_inv in Ho. by eapply mul_bounded.
  - apply reads_lift_inv in Ho. by eapply mul_bounded.
Qed.

Lemma call_output_bounded_witness :
  ∃ out ns g st',
    __call__ unit_cell unit_input (zeros 1 1, zeros 1 1) None root_scope ∅
      = (inr (out, ns, g), st') ∧
    all_within (-1) 1 out ∧ all_within (-1) 1 (h ns).
Proof.
  destruct (__call__ unit_cell unit_input (zeros 1 1, zeros 1 1) None root_scope ∅)
    as [[e | [[out ns] g]] st'] eqn:E.
  - pose proof unit_call_ok as H. rewrite E in H. discriminate H.
  - exists out, ns, g, st'. split; [reflexivity |].
    apply (call_output_bounded unit_cell unit_input (zeros 1 1, zeros 1 1) None
             root_scope ∅ st' out ns g); [reflexivity | exact tanh_bounded | exact E].
Defined.

(** ** Growth of the cell state *)

Lemma clip_scalar_shrinks self v :
  match _cell_clip self with Some K => (0 <= K)%R | None => True end →
  (Rabs (clip_scalar self v) <= Rabs v)%R.
Proof.
  unfold clip_scalar. destruct (_cell_clip self) as [K |]; [| lra].
  intros HK. unfold Rmax, Rmin, Rabs.
  repeat destruct (Rle_dec _ _); repeat destruct (Rcase_abs _); lra.
Qed.

Lemma gated_sum_bound s1 s2 cp a :
  (0 < s1 < 1)%R → (0 < s2 < 1)%R → (-1 <= a <= 1)%R →
  (Rabs (s1 * cp + s2 * a) <= Rabs cp + 1)%R.
Proof.
  intros H1 H2 Ha. unfold Rabs. repeat destruct (Rcase_abs _); nra.
Qed.

(** Without batch normalisation, for an activation with values in
    [[-1, 1]] and [cell_clip] unset or non-negative, one step moves each
    entry of the cell state by at most 1 in absolute value:
    [|c[r][k]| <= |c_prev[r][k]| + 1]. *)
Theorem call_cell_state_growth
    (self : LSTMCell) (inputs : Tensor) (c_prev m_prev : matrix)
    (scope : option string) (s : VariableScope) (st st' : gmap string variable)
    (out : matrix) (ns : LSTMStateTuple) (g : option gates) :
  _bn self = false →
  bounded_activation (_activation self) →
  match _cell_clip self with Some K => (0 <= K)%R | None => True end →
  nrows c_prev = nrows (value inputs) →
  ncols c_prev = _num_units self →
  __call__ self inputs (c_prev, m_prev) scope s st = (inr (out, ns, g), st') →
  ∀ r k, (r < nrows (value inputs))%nat → (k < _num_units self)%nat →
    (Rabs (entry (c ns) r k) <= Rabs (entry c_prev r k) + 1)%R.
Proof.
  intros Hbn Hact Hclip Hr Hc E r k Hrb Hkn.
  apply call_plain_inv in E
    as (dims & n & W & B & ci & xw & L & peep & m0 & _ & _ & _ & _ & _ & _ & _
        & _ & _ & _ & Hcs & _); [| done..].
  rewrite Hcs, entry_tabulate by done.
  etrans; [by apply clip_scalar_shrinks |].
  unfold spec_cell_state. destruct peep as [[[w_f w_i] w_o] |];
    apply gated_sum_bound; first [apply sigmoid_range | apply Hact].
Qed.

Lemma call_cell_state_growth_witness :
  ∃ out ns g st',
    __call__ unit_cell unit_input (zeros 1 1, zeros 1 1) None root_scope ∅
      = (inr (out, ns, g), st') ∧
    (Rabs (entry (c ns) 0 0) <= Rabs (entry (zeros 1 1) 0 0) + 1)%R.
Proof.
  destruct (__call__ unit_cell unit_input (zeros 1 1, zeros 1 1) None root_scope ∅)
    as [[e | [[out ns] g]] st'] eqn:E.
  - pose proof unit_call_ok as H. rewrite E in H. discriminate H.
  - exists out, ns, g, st'. split; [reflexivity |].
    apply (call_cell_state_growth unit_cell unit_input (zeros 1 1) (zeros 1 1) None
             root_scope ∅ st' out ns g);
      [reflexivity | exact tanh_bounded | exact I | reflexivity | reflexivity
      | exact E | vm_compute; lia | vm_compute; lia].
Defined.

(** ** The returned gates *)

(** The third component of a successful step's result is present exactly
    when [return_gate] is set, and then holds the four raw slices of the
    gate pre-activations (input gate, candidate, forget gate, output
    gate), each of width [num_units]: the forget bias and the peephole
    terms are not part of them. *)
Theorem call_returned_gates
    (self : LSTMCell) (inputs : Tensor) (c_prev m_prev : matrix)
    (scope : option string) (s : VariableScope) (st st' : gmap string variable)
    (out : matrix) (ns : LSTMStateTuple) (g : option gates) :
  __call__ self inputs (c_prev, m_prev) scope s st = (inr (out, ns, g), st') →
  gates_as_returned self inputs m_prev scope s st' g.
Proof.
  intros E.
  apply call_inv in E as (dims & input_size & [[[i j] f] o] & _ & _ & E & _ & ->).
  apply step_inv in E as (L & peep & c0 & m0 & HL & Hs & _).
  pose proof (lstm_matrix_ncols _ _ _ _ _ _ _ _ _ _ HL) as HLc.
  unfold gates_as_returned. destruct (_return_gate self); [| done].
  split; [done |]. exists input_size, L. repeat split; try done.
  destruct (split4_inv _ _ _ _ _ _ HLc Hs) as (-> & -> & -> & ->). done.
Qed.

Lemma gate_call_ok :
  is_ok (__call__ gate_cell unit_input (zeros 1 1, zeros 1 1) None root_scope ∅).1 = true.
Proof. vm_compute. reflexivity. Qed.

Lemma call_returned_gates_witness :
  ∃ out ns g st',
    __call__ gate_cell unit_input (zeros 1 1, zeros 1 1) None root_scope ∅
      = (inr (out, ns, g), st') ∧
    gates_as_returned gate_cell unit_input (zeros 1 1) None root_scope st' g.
Proof.
  destruct (__call__ gate_cell unit_input (zeros 1 1, zeros 1 1) None root_scope ∅)
    as [[e | [[out ns] g]] st'] eqn:E.
  - pose proof gate_call_ok as H. rewrite E in H. discriminate H.
  - exists out, ns, g, st'. split; [reflexivity |].
    exact (call_returned_gates gate_cell unit_input (zeros 1 1) (zeros 1 1) None
             root_scope ∅ st' out ns g E).
Defined.

(** ** The output, entry by entry *)

Lemma output_gate_plain peep fo fc b n :
  match peep with Some (_, _, w_o) => length w_o = n | None => True end →
  output_gate peep (tabulate b n fo) (tabulate b n fc) =
    inr (tabulate b n (λ r k,
           match peep with
           | None => tf.sigmoid (fo r k)
           | Some (_, _, w_o) => tf.sigmoid (fo r k + nth k w_o 0 * fc r k)%R
           end)).
Proof.
  intros Hp. unfold output_gate, tf.mul, tf.add.
  destruct peep as [[[w_f w_i] w_o] |].
  - rewrite binop_row by done. cbn [mbind res_mbind res_bind].
    rewrite length_tabulate_rows, ncols_tabulate.
    rewrite binop_same by (by rewrite ?length_tabulate_rows).
    cbn [mbind res_mbind res_bind mret res_ret].
    rewrite tmap_tabulate, length_tabulate_rows, ncols_tabulate. f_equal.
    apply tabulate_ext. intros r k Hr Hk. by rewrite !entry_tabulate.
  - cbn [mret res_ret]. by rewrite tmap_tabulate.
Qed.

(** Without batch normalisation the pre-projection output is computed
    without touching the store. *)
Lemma cell_output_plain self peep fo fc b n scope_name s st :
  _bn self = false →
  match peep with Some (_, _, w_o) => length w_o = n | None => True end →
  cell_output self peep (tabulate b n fo) (tabulate b n fc) scope_name s st =
    (inr (tabulate b n (λ r k,
            (match peep with
             | None => tf.sigmoid (fo r k)
             | Some (_, _, w_o) => tf.sigmoid (fo r k + nth k w_o 0 * fc r k)
             end * _activation self (fc r k))%R)), st).
Proof.
  intros Hbn Hp. unfold cell_output. rewrite (output_gate_plain _ _ _ _ _ Hp), Hbn.
  erewrite bind_ok; [| reflexivity]. unfold lift, tf.mul.
  rewrite tmap_tabulate, binop_same by (by rewrite ?length_tabulate_rows).
  rewrite length_tabulate_rows, ncols_tabulate. do 2 f_equal.
  apply tabulate_ext. intros r k Hr Hk. by rewrite !entry_tabulate.
Qed.

(** Without batch normalisation, for a previous cell state of the batch's
    height and of width [num_units], the output of a successful step is,
    entry by entry, [sigmoid(o) * activation(c)] for the output-gate slice
    [o] and the new (clipped) cell state [c], with [w_o_diag * c] added
    inside the sigmoid under peepholes; with [num_proj] set it is then
    multiplied by the stored projection matrix. *)
Theorem call_output_formula
    (self : LSTMCell) (inputs : Tensor) (c_prev m_prev : matrix)
    (scope : option string) (s : VariableScope) (st st' : gmap string variable)
    (out : matrix) (ns : LSTMStateTuple) (g : option gates) :
  _bn self = false →
  nrows c_prev = nrows (value inputs) →
  ncols c_prev = _num_units self →
  __call__ self inputs (c_prev, m_prev) scope s st = (inr (out, ns, g), st') →
  output_as_specified self inputs c_prev m_prev scope s st' out ns.
Proof.
  intros Hbn Hr Hc E.
  apply call_plain_inv in E
    as (dims & n & W & B & ci & xw & L & peep & m0 & Hd & Hn & HW & HB & Hci & Hxw & HL
        & HLr & Hp & _ & Hcs & Ho & Hpr & HLc); [| done..].
  pose proof (peephole_variables_inv _ _ _ _ Hp) as Hpv.
  assert (m0 = tabulate (nrows (value inputs)) (_num_units self)
                 (spec_output_entry self peep L (c ns))) as Hm0.
  { unfold spec_gates in Ho. cbn [snd] in Ho. rewrite HLr, Hcs in Ho.
    unfold reads in Ho. rewrite cell_output_plain in Ho; [| done |].
    - injection Ho as <-. apply tabulate_ext. intros r k Hrb Hkn.
      unfold spec_output_entry. rewrite Hcs, !entry_tabulate by (done || lia).
      by destruct peep as [[[? ?] ?] |].
    - destruct peep as [[[? ?] ?] |]; [| done]. by destruct Hpv as (_ & _ & _ & ?). }
  exists dims, n, W, B, ci, xw, L, peep, m0. repeat split; try done.
  unfold project in Hpr. destruct (_num_proj self) as [p |].
  - apply reads_bind_inv in Hpr as (WP & HWP & Hpr);
      [| solve_stable | intros; solve_stable].
    apply reads_lift_inv in Hpr. exists WP. split; [done |].
    pose proof (get_concat_variable_ncols _ _ _ _ _ _ _ _ HWP) as HWc.
    apply matmul_inv in Hpr as [_ ->].
    by rewrite HWc, Hm0, length_tabulate_rows, ncols_tabulate.
  - by apply reads_ret_inv in Hpr.
Qed.

Lemma peephole_call_ok :
  is_ok (__call__ peephole_cell unit_input (zeros 1 1, zeros 1 1) None
           root_scope ∅).1 = true.
Proof. vm_compute. reflexivity. Qed.

Lemma call_output_formula_witness :
  ∃ out ns g st',
    __call__ peephole_cell unit_input (zeros 1 1, zeros 1 1) None root_scope ∅
      = (inr (out, ns, g), st') ∧
    output_as_specified peephole_cell unit_input (zeros 1 1) (zeros 1 1) None
      root_scope st' out ns.
Proof.
  destruct (__call__ peephole_cell unit_input (zeros 1 1, zeros 1 1) None root_scope ∅)
    as [[e | [[out ns] g]] st'] eqn:E.
  - pose proof peephole_call_ok as H. rewrite E in H. discriminate H.
  - exists out, ns, g, st'. split; [reflexivity |].
    apply (call_output_formula peephole_cell unit_input (zeros 1 1) (zeros 1 1) None
             root_scope ∅ st' out ns g);
      [reflexivity | reflexivity | reflexivity | exact E].
Defined.

(** ** Sharded variables: the rows add up *)

Lemma mapM_Forall2 {A B} (f : A → M B) (P : A → B → Prop) l s st bs st' :
  (∀ a s st b st', f a s st = (inr b, st') → P a b) →
  mapM f l s st = (inr bs, st') → Forall2 P l bs.
Proof.
  intros Hf. revert s st bs st'. induction l as [| a l IH]; intros s st bs st'; simpl.
  - intros [= <- _]. constructor.
  - intros E. apply bind_run_inv in E as (b & st1 & Hb & E).
    apply bind_run_inv in E as (bs' & st2 & Hbs & E). injection E as <- _.
    constructor; [by eapply Hf | by eapply IH].
Qed.

Lemma shard_sizes_sum u rem k :
  (rem <= k)%nat →
  list_sum (map (λ i, if (i <? rem)%nat then S u else u) (seq 0 k)) = (u * k + rem)%nat.
Proof.
  revert rem. induction k as [| k IH]; intros rem Hle.
  - simpl. lia.
  - rewrite seq_S, map_app, list_sum_app. simpl.
    destruct (Nat.ltb_spec k rem).
    + assert (rem = S k) as -> by lia.
      rewrite (map_ext_in _ (λ _, S u)), (map_ext_in (λ _, S u) (λ i, if (i <? k)%nat then S u else u)).
      * rewrite (IH k) by lia. lia.
      * intros i Hi%in_seq. destruct (Nat.ltb_spec i k); [done | lia].
      * intros i Hi%in_seq. destruct (Nat.ltb_spec i (S k)); [done | lia].
    + rewrite IH by lia. lia.
Qed.

Lemma Forall2_nrows_sum {A} (size : A → nat) (idxs : list A) (ms : list matrix) :
  Forall2 (λ i m, nrows m = size i) idxs ms →
  length (concat (map rows ms)) = list_sum (map size idxs).
Proof.
  induction 1 as [| i m idxs ms Hm _ IH]; simpl; [done |].
  rewrite length_app, IH. unfold nrows in Hm. lia.
Qed.

(** The concatenated variable has as many rows as were asked for,
    however many shards store it. *)
Lemma get_concat_variable_nrows name r c n s st W st' :
  _get_concat_variable name r c n s st = (inr W, st') → nrows W = r.
Proof.
  unfold _get_concat_variable. intros E.
  apply bind_run_inv in E as (shards & st1 & Hs & E).
  unfold _get_sharded_variable in Hs.
  destruct (Nat.ltb_spec r n) as [| Hrn]; [done |].
  destruct (Nat.eqb_spec n 0) as [| Hn0]; [done |].
  set (u := (r / n)%nat) in *. set (rem := (r - u * n)%nat) in *.
  eapply (mapM_Forall2 _ (λ i m, nrows m = if (i <? rem)%nat then S u else u)) in Hs.
  2: { intros i ? ? m ? Hm. by apply get_variable2_shape in Hm as [? _]. }
  assert (length (concat (map rows shards)) = r) as Hsum.
  { rewrite (Forall2_nrows_sum _ _ _ Hs).
    pose proof (Nat.div_mod_eq r n) as Hdm.
    pose proof (Nat.mod_upper_bound r n Hn0) as Hub.
    rewrite shard_sizes_sum; unfold rem, u; nia. }
  destruct shards as [| m [| m' l]].
  - done.
  - injection E as <- _. simpl in Hsum. rewrite length_app in Hsum. simpl in Hsum.
    unfold nrows. lia.
  - unfold lift, tf.concat0 in E. case_match; [| done]. injection E as <- _. done.
Qed.

(** ** A step on conforming inputs cannot fail *)

Lemma lstm_matrix_plain_ok self inputs m_prev input_size num_proj scope_name s st W B :
  _bn self = false →
  ncols inputs = input_size → nrows m_prev = nrows inputs → ncols m_prev = num_proj →
  reads (_get_concat_variable "W" (input_size + num_proj) (4 * _num_units self)
           (_num_unit_shards self)) s st W →
  reads (vs.get_variable "B" (4 * _num_units self) (Some zeros_initializer) true) s st B →
  ∃ L, lstm_matrix self inputs m_prev input_size num_proj scope_name s st = (inr L, st) ∧
       nrows L = nrows inputs ∧ ncols L = (4 * _num_units self)%nat.
Proof.
  intros Hbn Hci Hmr Hmc HW HB. unfold lstm_matrix. rewrite Hbn.
  pose proof (get_concat_variable_nrows _ _ _ _ _ _ _ _ HW) as HWr.
  pose proof (get_concat_variable_ncols _ _ _ _ _ _ _ _ HW) as HWc.
  pose proof (get_variable_value _ _ _ _ _ _ _ _ HB) as [HBl _].
  erewrite bind_ok by exact HW. erewrite bind_ok by exact HB.
  eexists. split.
  - unfold lift, tf.concat1. rewrite Hmr, Nat.eqb_refl. cbn [mbind res_mbind res_bind].
    unfold tf.matmul. cbn [ncols tabulate]. rewrite Hci, Hmc, HWr, Nat.eqb_refl.
    cbn [mbind res_mbind res_bind]. unfold tf.bias_add. cbn [ncols tabulate].
    rewrite HWc, HBl, Nat.eqb_refl. reflexivity.
  - by rewrite !length_tabulate_rows.
Qed.

Lemma step_plain_ok self inputs c_prev m_prev input_size scope s st :
  _bn self = false →
  ncols inputs = input_size →
  nrows m_prev = nrows inputs → ncols m_prev = num_proj_of self →
  nrows c_prev = nrows inputs → ncols c_prev = _num_units self →
  weights_exist self scope s st input_size →
  ∃ r, step self inputs c_prev m_prev input_size (num_proj_of self) (scope_name_of scope)
         (inner_scope self scope s) st = (inr r, st).
Proof.
  intros Hbn Hci Hmr Hmc Hcr Hcc ([W HW] & [B HB] & [peep Hp] & HWP).
  destruct (lstm_matrix_plain_ok self inputs m_prev input_size (num_proj_of self)
              (scope_name_of scope) _ _ W B Hbn Hci Hmr Hmc HW HB) as (L & HL & HLr & HLc).
  unfold step. erewrite bind_ok by exact HL.
  erewrite bind_ok by (unfold lift; by rewrite (split4_spec_gates _ _ HLc)).
  unfold spec_gates. erewrite bind_ok by exact Hp.
  pose proof (peephole_variables_inv _ _ _ _ Hp) as Hpv. rewrite HLr.
  assert (∃ fc, cell_update self peep
                  (tabulate (nrows inputs) (_num_units self) (λ r k, entry L r k))
                  (tabulate (nrows inputs) (_num_units self)
                     (λ r k, entry L r (_num_units self + k)))
                  (tabulate (nrows inputs) (_num_units self)
                     (λ r k, entry L r (2 * _num_units self + k))) c_prev
                = inr (tabulate (nrows inputs) (_num_units self) fc)) as [fc Hu].
  { destruct peep as [[[w_f w_i] w_o] |].
    - destruct Hpv as (_ & Hf & Hi & _). eexists. by apply cell_update_peep.
    - eexists. by apply cell_update_plain. }
  erewrite bind_ok by (unfold lift; by rewrite Hu).
  rewrite clip_cell_tabulate.
  erewrite bind_ok.
  2: { apply cell_output_plain; [done |].
       destruct peep as [[[? ?] ?] |]; [| done]. by destruct Hpv as (_ & _ & _ & ?). }
  unfold project, num_proj_of in *. destruct (_num_proj self) as [p |].
  - destruct HWP as [WP HWP].
    pose proof (get_concat_variable_nrows _ _ _ _ _ _ _ _ HWP) as HWr.
    erewrite bind_ok.
    2: { erewrite bind_ok by exact HWP. unfold lift, tf.matmul.
         cbn [ncols tabulate]. by rewrite HWr, Nat.eqb_refl. }
    eexists. reflexivity.
  - erewrite bind_ok by reflexivity. eexists. reflexivity.
Qed.

(** Without batch normalisation, once the variables exist with the shapes
    the step asks for, a step on an input of static shape [[?, input_size]]
    and a state of the declared shapes succeeds, and it leaves the store
    as it is: no shape error can arise inside the step. *)
Theorem call_succeeds_when_weights_exist
    (self : LSTMCell) (inputs : Tensor) (c_prev m_prev : matrix)
    (scope : option string) (s : VariableScope) (st : gmap string variable)
    (d0 : Dimension) (input_size : nat) :
  _bn self = false →
  get_shape inputs = Some [d0; Some input_size] →
  ncols (value inputs) = input_size →
  nrows m_prev = nrows (value inputs) → ncols m_prev = num_proj_of self →
  nrows c_prev = nrows (value inputs) → ncols c_prev = _num_units self →
  weights_exist self scope s st input_size →
  ∃ out ns g, __call__ self inputs (c_prev, m_prev) scope s st = (inr (out, ns, g), st).
Proof.
  intros Hbn Hsh Hci Hmr Hmc Hcr Hcc Hw.
  destruct (step_plain_ok self (value inputs) c_prev m_prev input_size scope s st
              Hbn Hci Hmr Hmc Hcr Hcc Hw) as ([[c1 m1] gs] & Hstep).
  unfold __call__. rewrite Hsh. fold (num_proj_of self).
  erewrite bind_ok by reflexivity. cbn [nth].
  erewrite bind_ok by (unfold vs.variable_scope; exact Hstep).
  destruct (negb (_return_gate self)); by eexists _, _, _.
Qed.

Lemma call_succeeds_when_weights_exist_witness :
  ∃ out ns g,
    __call__ unit_cell unit_input (zeros 1 1, zeros 1 1) None root_scope unit_store
    = (inr (out, ns, g), unit_store).
Proof.
  apply (call_succeeds_when_weights_exist unit_cell unit_input (zeros 1 1) (zeros 1 1)
           None root_scope unit_store None 1);
    try reflexivity.
  split; [| split; [| split]].
  - exists (zeros 2 4). vm_compute. reflexivity.
  - exists [0; 0; 0; 0]%R. vm_compute. reflexivity.
  - exists None. vm_compute. reflexivity.
  - exact I.
Defined.

(** ** [batch_norm] in training mode on a later call *)

Lemma nth_map_Rmult c l k : nth k (map (Rmult c) l) 0%R = (c * nth k l 0)%R.
Proof.
  rewrite <- (Rmult_0_r c) at 1. by rewrite (map_nth (Rmult c) l 0%R k).
Qed.

Lemma binop1_blend alpha batch stored :
  length stored = length batch →
  binop1 "Add" Rplus (map (Rmult (1 - alpha)) batch) (map (Rmult alpha) stored)
  = inr (blend alpha batch stored).
Proof.
  intros Hl. rewrite binop1_same by (by rewrite !length_map).
  unfold blend. rewrite length_map. f_equal. apply map_ext. intros k.
  by rewrite !nth_map_Rmult.
Qed.

(** On a later call (the stored counter differs from the sentinel) in
    training mode, the tensor is normalised with the blend
    [(1 - alpha) * batch + alpha * stored] of the batch statistics and
    the stored ones. *)
Theorem batch_norm_training_uses_blended_statistics
    (x : matrix) (alpha : R) (shift : bool) (scope : string)
    (s : VariableScope) (st st' : gmap string variable) (normed : matrix) :
  counter_value st s scope ≠ zero_cnt_value st s scope →
  batch_norm x (Some false) alpha shift scope s st = (inr normed, st') →
  ∃ beta gamma mean var,
    holds st' (bn_name s scope "_beta") (Float1 beta) ∧
    holds st' (bn_name s scope "_gamma") (Float1 gamma) ∧
    holds st' (bn_name s scope "_mean") (Float1 mean) ∧
    holds st' (bn_name s scope "_var") (Float1 var) ∧
    normed = tabulate (nrows x) (ncols x)
               (normalised_entry x (blend alpha (tf.moments x).1 mean)
                  (blend alpha (tf.moments x).2 var) beta gamma).
Proof.
  intros Hne E.
  apply batch_norm_inv in E
    as (beta & gamma & mean & var & stats & Hb & Hg & Hm & Hv & _ & _ & Hs & Hn
        & Lb & Lg & Lm & Lv).
  pose proof (used_statistics_length _ _ _ _ _ _ _ _ Lm Lv Hs) as [L1 L2].
  unfold used_statistics in Hs. destruct (tf.moments x) as [bm bv] eqn:Emo.
  assert (length bm = ncols x ∧ length bv = ncols x) as [Lbm Lbv].
  { unfold tf.moments in Emo. injection Emo as <- <-.
    by rewrite !length_map, !length_seq. }
  apply Z.eqb_neq in Hne. rewrite Hne in Hs.
  rewrite !binop1_blend in Hs by congruence.
  cbn [mbind res_mbind res_bind mret res_ret] in Hs. injection Hs as <-.
  simpl in Hn, L1, L2.
  rewrite (batch_normalization_ok x _ _ beta gamma L1 L2 Lb Lg) in Hn.
  injection Hn as <-. by exists beta, gamma, mean, var.
Qed.

Lemma counted_training_ok :
  is_ok (batch_norm two_rows (Some false) (9 / 10) true "bn" root_scope counted_store).1
  = true.
Proof. vm_compute. reflexivity. Qed.

Lemma batch_norm_training_uses_blended_statistics_witness :
  ∃ normed st' beta gamma mean var,
    batch_norm two_rows (Some false) (9 / 10) true "bn" root_scope counted_store
      = (inr normed, st') ∧
    holds st' (bn_name root_scope "bn" "_mean") (Float1 mean) ∧
    holds st' (bn_name root_scope "bn" "_var") (Float1 var) ∧
    normed = tabulate 2 1
               (normalised_entry two_rows (blend (9 / 10) (tf.moments two_rows).1 mean)
                  (blend (9 / 10) (tf.moments two_rows).2 var) beta gamma).
Proof.
  destruct (batch_norm two_rows (Some false) (9 / 10) true "bn" root_scope counted_store)
    as [[e | normed] st'] eqn:E.
  - pose proof counted_training_ok as H. rewrite E in H. discriminate H.
  - destruct (batch_norm_training_uses_blended_statistics two_rows (9 / 10) true "bn"
                root_scope counted_store st' normed)
      as (beta & gamma & mean & var & _ & _ & Hm & Hv & Hn);
      [vm_compute; discriminate | exact E |].
    exists normed, st', beta, gamma, mean, var. repeat split; done.
Defined.

(** ** Gate pre-activations under batch normalisation *)



